(** * CasparCG compositing core: Stage and Mixer

    A shallow embedding of [core/producer/stage.cpp] and
    [core/mixer/mixer.cpp].  The lambdas that the two classes hand to
    their executor are state transformers over the member maps; the
    executor itself, the layer, the frame graph and the mixing back ends
    are collaborators whose headers are not part of the two files and are
    taken as an interface. *)

From Stdlib Require Import ZArith NArith List Lia.
From Stdlib Require Import Floats.PrimFloat.
From stdpp Require Import base option list gmap sorting.

Set Warnings "-inexact-float".

(** ** Exceptions and member state

    A C++ statement sequence that mutates members and may throw is a
    function from the state to an outcome and the state reached: what was
    written before a [throw] stays written. *)

Inductive outcome (A : Type) : Type :=
| Returned (a : A)
| Thrown.
Arguments Returned {A} a.
Arguments Thrown {A}.

Definition M (St A : Type) : Type := St → outcome A * St.

Definition ret {St A} (a : A) : M St A := λ s, (Returned a, s).

Definition bind {St A B} (m : M St A) (k : A → M St B) : M St B :=
  λ s, match m s with
       | (Returned a, s') => k a s'
       | (Thrown, s') => (Thrown, s')
       end.

Definition throw {St A} : M St A := λ s, (Thrown, s).

Definition gets {St A} (f : St → A) : M St A := λ s, (Returned (f s), s).

Definition modify {St} (f : St → St) : M St unit := λ s, (Returned tt, f s).

(** [try { body } catch(...) { handler }] *)
Definition try_catch {St A} (body handler : M St A) : M St A :=
  λ s, match body s with
       | (Returned a, s') => (Returned a, s')
       | (Thrown, s') => handler s'
       end.

Notation "'let!' x ':=' c 'in' k" := (bind c (λ x, k))
  (at level 10, x name, c at level 100, k at level 200, only parsing).
Notation "'do!' c 'in' k" := (bind c (λ _, k))
  (at level 10, c at level 100, k at level 200, only parsing).

(** [BOOST_FOREACH] / range-for with a body that may throw. *)
Fixpoint for_each {St A} (xs : list A) (body : A → M St unit) : M St unit :=
  match xs with
  | [] => ret tt
  | x :: xs' => do! body x in for_each xs' body
  end.

(** [tbb::parallel_for_each]: the bodies share no entry of the maps they
    touch, so a run is a serialisation of the bodies that were started.
    [started] lists them in that order.  A body that throws does not stop
    bodies already started; the exception is rethrown to the caller once
    they have finished. *)
Fixpoint parallel_for_each {St A} (started : list A) (body : A → M St unit)
  : M St unit :=
  match started with
  | [] => ret tt
  | x :: rest =>
      λ s, match body x s with
           | (Returned _, s') => parallel_for_each rest body s'
           | (Thrown, s') => (Thrown, snd (parallel_for_each rest body s'))
           end
  end.

(** ** [std::map<int, T>] *)

(** [m[k]]: a missing key is inserted with a default-constructed value. *)
Definition subscript {A} (dflt : A) (k : Z) (m : gmap Z A) : A * gmap Z A :=
  match m !! k with
  | Some a => (a, m)
  | None => (dflt, <[k := dflt]> m)
  end.

(** What evaluating [m[k]] leaves in the map. *)
Definition touch {A} (dflt : A) (k : Z) (m : gmap Z A) : gmap Z A :=
  (subscript dflt k m).2.

(** Iteration visits the keys in ascending order. *)
Definition key_le {A} (x y : Z * A) : Prop := (x.1 ≤ y.1)%Z.

Global Instance key_le_dec {A} (x y : Z * A) : Decision (key_le x y).
Proof. unfold key_le. apply _. Defined.

Definition elements {A} (m : gmap Z A) : list (Z * A) :=
  merge_sort key_le (map_to_list m).

(** ** Video format and frame transform *)

Module field_mode.
Inductive type := progressive | upper | lower.

Definition eqb (a b : type) : bool :=
  match a, b with
  | progressive, progressive | upper, upper | lower, lower => true
  | _, _ => false
  end.
End field_mode.

Record video_format_desc := {
  width : Z;
  height : Z;
  square_width : Z;
  square_height : Z;
  fps : float;
  field_mode : field_mode.type
}.

(** Modelled from the spec: [frame_transform] is declared in
    [core/frame/frame_transform.h]; the fields are those of the spec's
    Transform (fill scale and translation as (x, y) pairs of doubles,
    opacity, layer depth, is-key), and the default is the identity. *)
Record frame_transform := {
  fill_translation : float * float;
  fill_scale : float * float;
  opacity : float;
  is_key : bool;
  layer_depth : Z
}.

Definition frame_transform_new : frame_transform :=
  {| fill_translation := (0%float, 0%float);
     fill_scale := (1%float, 1%float);
     opacity := 1%float;
     is_key := false;
     layer_depth := 0 |}.

Definition set_layer_depth (d : Z) (t : frame_transform) : frame_transform :=
  {| fill_translation := fill_translation t;
     fill_scale := fill_scale t;
     opacity := opacity t;
     is_key := is_key t;
     layer_depth := d |}.

(** [frame_producer::flags] is a bit set over [int]. *)
Definition flags_none : Z := 0.

Definition has_flag (flags f : Z) : bool := (Z.land flags f =? f)%Z.

(** ** The executor

    Modelled from the spec: [executor] is declared in
    [common/concurrency/executor.h].  One worker thread serves two lanes;
    each lane is first in, first out; the high lane drains before the
    normal lane; a task that has started runs to completion.
    [begin_invoke] returns at once with a handle (here a ticket) and
    [invoke] blocks the caller until the worker has completed its task. *)

Inductive task_priority := high_priority | normal_priority.

Module Executor.
Section Executor.
Context {St Task Res : Type}.
Variable run : Task → St → Res * St.

Record t := {
  state : St;
  high : list (nat * Task);
  normal : list (nat * Task);
  completed : list (nat * Res);
  next_ticket : nat
}.

Definition begin_invoke (task : Task) (priority : task_priority) (e : t)
  : nat * t :=
  let ticket := next_ticket e in
  (ticket,
   match priority with
   | high_priority =>
       {| state := state e;
          high := high e ++ [(ticket, task)];
          normal := normal e;
          completed := completed e;
          next_ticket := S ticket |}
   | normal_priority =>
       {| state := state e;
          high := high e;
          normal := normal e ++ [(ticket, task)];
          completed := completed e;
          next_ticket := S ticket |}
   end).

Definition complete (ticket : nat) (task : Task) (e : t)
    (high' normal' : list (nat * Task)) : t :=
  let '(r, s') := run task (state e) in
  {| state := s';
     high := high';
     normal := normal';
     completed := (ticket, r) :: completed e;
     next_ticket := next_ticket e |}.

(** The worker takes the next task and runs it to completion. *)
Definition step (e : t) : t :=
  match high e with
  | (ticket, task) :: high' => complete ticket task e high' (normal e)
  | [] =>
      match normal e with
      | (ticket, task) :: normal' => complete ticket task e [] normal'
      | [] => e
      end
  end.

Fixpoint steps (n : nat) (e : t) : t :=
  match n with
  | O => e
  | S n' => steps n' (step e)
  end.

(** The value of a future, once its task has completed. *)
Fixpoint find_ticket (ticket : nat) (cs : list (nat * Res)) : option Res :=
  match cs with
  | [] => None
  | (ticket', r) :: cs' =>
      if Nat.eqb ticket' ticket then Some r else find_ticket ticket cs'
  end.

Definition result (ticket : nat) (e : t) : option Res :=
  find_ticket ticket (completed e).

(** The caller of [invoke] sleeps while the worker steps. *)
Fixpoint wait (fuel : nat) (ticket : nat) (e : t) : option (Res * t) :=
  match result ticket e with
  | Some r => Some (r, e)
  | None =>
      match fuel with
      | O => None
      | S fuel' => wait fuel' ticket (step e)
      end
  end.

Definition pending (e : t) : nat := length (high e) + length (normal e).

Definition invoke (task : Task) (priority : task_priority) (e : t)
  : option (Res * t) :=
  let '(ticket, e') := begin_invoke task priority e in
  wait (pending e') ticket e'.

(** Tickets handed out so far are below [next_ticket]. *)
Definition wf (e : t) : Prop :=
  Forall (λ x, x.1 < next_ticket e) (high e) ∧
  Forall (λ x, x.1 < next_ticket e) (normal e) ∧
  Forall (λ x, x.1 < next_ticket e) (completed e).

End Executor.
Arguments t : clear implicits.
End Executor.

(** ** Collaborators of the Stage

    [layer], [frame_producer], [basic_frame] and [tweener] are declared in
    headers outside the two files; the Stage only calls them. *)

Class Collaborators := {
  basic_frame : Type;
  frame_producer : Type;
  layer : Type;
  wptree : Type;
  tweener : Type;
  (** [layer()] *)
  layer_new : layer;
  layer_load : frame_producer → bool → Z → layer → layer;
  layer_pause : layer → layer;
  layer_play : layer → layer;
  layer_stop : layer → layer;
  (** [layer::receive(flags)] advances the layer and may throw. *)
  layer_receive : Z → layer → outcome basic_frame * layer;
  layer_foreground : layer → frame_producer;
  layer_background : layer → frame_producer;
  layer_info : layer → wptree;
  (** [tweener()] and the eased interpolation
      [tween(time, source, dest, duration, tweener)]. *)
  tweener_new : tweener;
  tween : N → frame_transform → frame_transform → N → tweener → frame_transform;
  (** [frame_producer::flags::alpha_only] and [::deinterlace]. *)
  flags_alpha_only : Z;
  flags_deinterlace : Z
}.

Module Stage.
Section Stage.
Context `{Collaborators}.

(** Modelled from the spec: [tweened_transform] is declared in
    [core/frame/frame_transform.h].  It holds source, destination,
    duration and elapsed ticks and the easing; the elapsed count is
    clamped to the duration, and at the end of the tween the value is
    the destination. *)
Record tweened_transform := {
  source_ : frame_transform;
  dest_ : frame_transform;
  duration_ : N;
  time_ : N;
  tweener_ : tweener
}.

Definition tweened_transform_new : tweened_transform :=
  {| source_ := frame_transform_new;
     dest_ := frame_transform_new;
     duration_ := 0;
     time_ := 0;
     tweener_ := tweener_new |}.

Definition make_tweened_transform (source dest : frame_transform)
    (duration : N) (tween : tweener) : tweened_transform :=
  {| source_ := source;
     dest_ := dest;
     duration_ := duration;
     time_ := 0;
     tweener_ := tween |}.

Definition fetch (t : tweened_transform) : frame_transform :=
  if (time_ t =? duration_ t)%N then dest_ t
  else tween (time_ t) (source_ t) (dest_ t) (duration_ t) (tweener_ t).

Definition tick (num : N) (t : tweened_transform) : tweened_transform :=
  {| source_ := source_ t;
     dest_ := dest_ t;
     duration_ := duration_ t;
     time_ := N.min (time_ t + num) (duration_ t);
     tweener_ := tweener_ t |}.

Definition fetch_and_tick (num : N) (t : tweened_transform)
  : frame_transform * tweened_transform :=
  let t' := tick num t in (fetch t', t').

(** Modelled from the spec: [draw_frame] is declared in
    [core/frame/draw_frame.h].  The Stage builds frames with the empty
    sentinel, by wrapping a received frame and attaching a transform,
    and with the free operation [interlace]. *)
Inductive draw_frame : Type :=
| draw_frame_empty
| make_draw_frame (frame : basic_frame) (transform : frame_transform)
| interlace (frame1 frame2 : draw_frame) (mode : field_mode.type).

(** *** [struct stage::impl] *)
Record impl := {
  layers_ : gmap Z layer;
  transforms_ : gmap Z tweened_transform
}.

Definition set_layers (f : gmap Z layer → gmap Z layer) (s : impl) : impl :=
  {| layers_ := f (layers_ s); transforms_ := transforms_ s |}.

Definition set_transforms
    (f : gmap Z tweened_transform → gmap Z tweened_transform) (s : impl)
  : impl :=
  {| layers_ := layers_ s; transforms_ := f (transforms_ s) |}.

(** [layers_[index].method()] for a mutating method. *)
Definition on_layer (index : Z) (method : layer → layer) (s : impl) : impl :=
  set_layers (λ m, let '(l, m') := subscript layer_new index m in
                   <[index := method l]> m') s.

Definition transform_func_t : Type := frame_transform → frame_transform.

Definition transform_tuple_t : Type := Z * transform_func_t * N * tweener.

Definition apply_transform (index : Z) (transform : transform_func_t)
    (mix_duration : N) (tween : tweener) (s : impl) : impl :=
  set_transforms
    (λ m, let '(t, m') := subscript tweened_transform_new index m in
          let src := fetch t in
          let dst := transform src in
          <[index := make_tweened_transform src dst mix_duration tween]> m')
    s.

(** The body of the single task of [apply_transforms]: one pass over the
    vector. *)
Definition apply_transforms (transforms : list transform_tuple_t) (s : impl)
  : impl :=
  fold_left (λ s' '(index, transform, mix_duration, tween),
               apply_transform index transform mix_duration tween s')
            transforms s.

Definition clear_transforms (index : Z) (s : impl) : impl :=
  set_transforms (delete index) s.

Definition clear_transforms_all (s : impl) : impl :=
  set_transforms (λ _, ∅) s.

Definition load (index : Z) (producer : frame_producer) (preview : bool)
    (auto_play_delta : Z) (s : impl) : impl :=
  on_layer index (layer_load producer preview auto_play_delta) s.

Definition pause (index : Z) (s : impl) : impl := on_layer index layer_pause s.

Definition play (index : Z) (s : impl) : impl := on_layer index layer_play s.

Definition stop (index : Z) (s : impl) : impl := on_layer index layer_stop s.

Definition clear (index : Z) (s : impl) : impl :=
  set_layers (delete index) s.

Definition clear_all (s : impl) : impl :=
  set_layers (λ _, ∅) s.

(** [std::swap(layers_[index], layers_[other_index])]: both subscripts
    are evaluated, then the two values are exchanged. *)
Definition swap_layer (index other_index : Z) (s : impl) : impl :=
  set_layers
    (λ m, let '(a, m1) := subscript layer_new index m in
          let '(b, m2) := subscript layer_new other_index m1 in
          <[other_index := a]> (<[index := b]> m2))
    s.

(** The inner task of the swaps between two Stage instances, run while
    the initiating Stage waits for it. *)
Definition swap_layers (s other : impl) : impl * impl :=
  (set_layers (λ _, layers_ other) s, set_layers (λ _, layers_ s) other).


(** Reading [layers_[index]] goes through the same subscript. *)
Definition read_layer {A} (index : Z) (method : layer → A) (s : impl)
  : A * impl :=
  let '(l, m) := subscript layer_new index (layers_ s) in
  (method l, set_layers (λ _, m) s).

Definition foreground (index : Z) (s : impl) : frame_producer * impl :=
  read_layer index layer_foreground s.

Definition background (index : Z) (s : impl) : frame_producer * impl :=
  read_layer index layer_background s.

Definition info (index : Z) (s : impl) : wptree * impl :=
  read_layer index layer_info s.

(** [info()]: one child per layer with its index, in key order. *)
Definition info_all (s : impl) : list (wptree * Z) :=
  (λ kl, (layer_info kl.2, kl.1)) <$> elements (layers_ s).

(** *** [operator()]: one production tick

    The lambda works on the members, on its local [frames] and on the
    log that [CASPAR_LOG_CURRENT_EXCEPTION] writes to. *)
Inductive log_entry := current_exception.

Record tick_state := {
  this : impl;
  frames : gmap Z draw_frame;
  log : list log_entry
}.

Definition on_this (f : impl → impl) (st : tick_state) : tick_state :=
  {| this := f (this st); frames := frames st; log := log st |}.

Definition on_frames (f : gmap Z draw_frame → gmap Z draw_frame)
    (st : tick_state) : tick_state :=
  {| this := this st; frames := f (frames st); log := log st |}.

Definition log_current_exception (st : tick_state) : tick_state :=
  {| this := this st; frames := frames st;
     log := log st ++ [current_exception] |}.

Definition interlaced (format_desc : video_format_desc) : bool :=
  negb (field_mode.eqb (field_mode format_desc) field_mode.progressive).

(** [std::abs(transform.fill_scale[1] - 1.0) > 0.0001] and
    [std::abs(transform.fill_translation[1]) > 0.0001] on doubles. *)
Definition scale_moves (transform : frame_transform) : bool :=
  PrimFloat.ltb 0.0001 (PrimFloat.abs (PrimFloat.sub (fill_scale transform).2 1)).

Definition translation_moves (transform : frame_transform) : bool :=
  PrimFloat.ltb 0.0001 (PrimFloat.abs (fill_translation transform).2).

Definition layer_flags (format_desc2 : video_format_desc)
    (transform : frame_transform) : Z :=
  let flags := flags_none in
  let flags :=
    if interlaced format_desc2 then
      let flags :=
        Z.lor flags (if scale_moves transform then flags_deinterlace
                     else flags_none) in
      Z.lor flags (if translation_moves transform then flags_deinterlace
                   else flags_none)
    else flags in
  if is_key transform then Z.lor flags flags_alpha_only else flags.

(** [transforms_[index].fetch_and_tick(1)] *)
Definition tick_transform (index : Z) : M tick_state frame_transform :=
  λ st,
    let '(t, m) :=
      subscript tweened_transform_new index (transforms_ (this st)) in
    let '(transform, t') := fetch_and_tick 1 t in
    (Returned transform,
     on_this (set_transforms (λ _, <[index := t']> m)) st).

(** [layer.second.receive(flags)] on the element at [index]. *)
Definition receive (index : Z) (l : layer) (flags : Z)
  : M tick_state basic_frame :=
  λ st,
    let '(r, l') := layer_receive flags l in
    (r, on_this (set_layers <[index := l']>) st).

(** The body that [parallel_for_each] runs for the element at [index];
    only elements of [layers_] have one. *)
Definition produce_layer (format_desc2 : video_format_desc) (index : Z)
  : M tick_state unit :=
  λ st,
    match layers_ (this st) !! index with
    | None => ret tt st
    | Some l =>
        (let! transform := tick_transform index in
         let flags := layer_flags format_desc2 transform in
         let! frame := receive index l flags in
         let frame1 := make_draw_frame frame transform in
         let! frame1 :=
           if interlaced format_desc2 then
             let! transform2 := tick_transform index in
             let frame2 := make_draw_frame frame transform2 in
             ret (interlace frame1 frame2 (field_mode format_desc2))
           else ret frame1 in
         modify (on_frames <[index := frame1]>)) st
    end.

Definition produce_try (started : list Z) (format_desc : video_format_desc)
  : M tick_state unit :=
  let! ls := gets (λ st, elements (layers_ (this st))) in
  do! for_each ls (λ l, modify (on_frames <[l.1 := draw_frame_empty]>)) in
  parallel_for_each started (produce_layer format_desc).

Definition produce_catch : M tick_state unit :=
  do! modify (on_this clear_all) in
  modify log_current_exception.

Definition produce_task (started : list Z) (format_desc : video_format_desc)
  : M tick_state (gmap Z draw_frame) :=
  do! try_catch (produce_try started format_desc) produce_catch in
  gets frames.

(** On entry [frames] is empty and nothing has been logged. *)
Definition tick_begin (s : impl) : tick_state :=
  {| this := s; frames := ∅; log := [] |}.

Definition produce (started : list Z) (format_desc : video_format_desc)
    (s : impl) : outcome (gmap Z draw_frame) * tick_state :=
  produce_task started format_desc (tick_begin s).

(** What one tick can see and change of the layer at [index]. *)
Definition view (index : Z) (st : tick_state)
  : option layer * option tweened_transform * option draw_frame :=
  (layers_ (this st) !! index, transforms_ (this st) !! index,
   frames st !! index).

(** The transform that [operator()] finds at [index]. *)
Definition transform_at (index : Z) (s : impl) : tweened_transform :=
  default tweened_transform_new (transforms_ s !! index).

(** The state in which the parallel section starts: every layer has
    the empty frame as its placeholder. *)
Definition placeholders (s : impl) : tick_state :=
  {| this := s;
     frames := (λ _, draw_frame_empty) <$> layers_ s;
     log := [] |}.

(** The state that the body for [index] leaves, and a run of bodies. *)
Definition layer_step (format_desc : video_format_desc) (st : tick_state)
    (index : Z) : tick_state :=
  (produce_layer format_desc index st).2.

Definition run_layers (format_desc : video_format_desc) (started : list Z)
    (st : tick_state) : tick_state :=
  fold_left (layer_step format_desc) started st.

(** The frame stored for a layer whose [receive] returned [frame], and
    the ticks its transform has taken by then. *)
Definition layer_frame (format_desc : video_format_desc)
    (t : tweened_transform) (frame : basic_frame) : draw_frame :=
  let frame1 := make_draw_frame frame (fetch (tick 1 t)) in
  if interlaced format_desc then
    interlace frame1 (make_draw_frame frame (fetch (tick 2 t)))
      (field_mode format_desc)
  else frame1.

Definition layer_ticks (format_desc : video_format_desc) : N :=
  if interlaced format_desc then 2%N else 1%N.

(** The spec's condition for the deinterlace flag. *)
Definition deinterlace_needed (format_desc : video_format_desc)
    (transform : frame_transform) : Prop :=
  field_mode format_desc ≠ field_mode.progressive ∧
  (scale_moves transform = true ∨ translation_moves transform = true).

(** The indices a batch lists, and the tween that one entry stores at
    its index in a Stage [s]: from the current snapshot to the entry's
    function of it. *)
Definition batch_indices (transforms : list transform_tuple_t) : list Z :=
  (λ x : transform_tuple_t, x.1.1.1) <$> transforms.

Definition entry_tween (entry : transform_tuple_t) (s : impl)
  : tweened_transform :=
  let '(index, transform, mix_duration, tween) := entry in
  let src := fetch (transform_at index s) in
  make_tweened_transform src (transform src) mix_duration tween.

(** *** The tasks the Stage submits to its executor *)
Inductive task :=
| Produce (started : list Z) (format_desc : video_format_desc)
| ApplyTransforms (transforms : list transform_tuple_t)
| ApplyTransform (index : Z) (transform : transform_func_t)
    (mix_duration : N) (tween : tweener)
| ClearTransforms (index : Z)
| ClearTransformsAll
| Load (index : Z) (producer : frame_producer) (preview : bool)
    (auto_play_delta : Z)
| Pause (index : Z)
| Play (index : Z)
| Stop (index : Z)
| Clear (index : Z)
| ClearAll
| SwapLayer (index other_index : Z)
| Foreground (index : Z)
| Background (index : Z)
| InfoAll
| Info (index : Z).

Inductive task_result :=
| Frames (r : outcome (gmap Z draw_frame)) (logged : list log_entry)
| Done
| Producer (p : frame_producer)
| Tree (i : wptree)
| Trees (i : list (wptree * Z)).

Definition priority_of (k : task) : task_priority :=
  match k with
  | Produce _ _ => normal_priority
  | _ => high_priority
  end.

Definition run_task (k : task) (s : impl) : task_result * impl :=
  match k with
  | Produce started format_desc =>
      let '(r, st) := produce started format_desc s in
      (Frames r (log st), this st)
  | ApplyTransforms transforms => (Done, apply_transforms transforms s)
  | ApplyTransform index transform mix_duration tween =>
      (Done, apply_transform index transform mix_duration tween s)
  | ClearTransforms index => (Done, clear_transforms index s)
  | ClearTransformsAll => (Done, clear_transforms_all s)
  | Load index producer preview auto_play_delta =>
      (Done, load index producer preview auto_play_delta s)
  | Pause index => (Done, pause index s)
  | Play index => (Done, play index s)
  | Stop index => (Done, stop index s)
  | Clear index => (Done, clear index s)
  | ClearAll => (Done, clear_all s)
  | SwapLayer index other_index => (Done, swap_layer index other_index s)
  | Foreground index => let '(p, s') := foreground index s in (Producer p, s')
  | Background index => let '(p, s') := background index s in (Producer p, s')
  | InfoAll => (Trees (info_all s), s)
  | Info index => let '(i, s') := info index s in (Tree i, s')
  end.

(** A public operation enqueues its lambda on [executor_]. *)
Definition submit (k : task) (e : Executor.t impl task task_result)
  : nat * Executor.t impl task task_result :=
  Executor.begin_invoke k (priority_of k) e.

(** [operator()] waits for its task with [invoke]; the callers of
    [foreground], [background] and [info] wait for the future. *)
Definition call (k : task) (e : Executor.t impl task task_result)
  : option (task_result * Executor.t impl task task_result) :=
  Executor.invoke run_task k (priority_of k) e.

End Stage.
End Stage.

(** ** Collaborators of the Mixer

    [audio_mixer] and [image_mixer] are visitors declared in
    [core/mixer/audio/audio_mixer.h] and [core/mixer/image/image_mixer.h];
    a frame's [accept] hands them the frame, its transform included. *)

Abbreviation image_transform_t := frame_transform.

Module Mixer.

Record audio_transform := { volume : float }.

(** Modelled from the spec: in this revision [frame_transform] holds an
    [image_transform] with the spatial fields and the layer depth next
    to the audio part. *)
Record frame_transform := {
  image_transform : image_transform_t;
  audio_transform_ : audio_transform
}.

Record draw_frame (content : Type) := {
  content_ : content;
  transform : frame_transform
}.
Arguments content_ {content} d.
Arguments transform {content} d.

Class Backends := {
  frame_content : Type;
  audio_mixer : Type;
  image_mixer : Type;
  image_buffer : Type;
  audio_buffer : Type;
  (** [frame.accept(audio_mixer_)] and [frame.accept( *image_mixer_)] *)
  audio_accept : draw_frame frame_content → M audio_mixer unit;
  image_accept : draw_frame frame_content → M image_mixer unit;
  (** [( *image_mixer_)(format_desc)] and [audio_mixer_(format_desc)] *)
  image_finalize : video_format_desc → M image_mixer image_buffer;
  audio_finalize : video_format_desc → M audio_mixer audio_buffer;
  (** The master volume is a C++ [float]; the Mixer stores and returns
      it and computes nothing on it. *)
  audio_set_master_volume : float → audio_mixer → audio_mixer;
  audio_get_master_volume : audio_mixer → float
}.

Section Mixer.
Context `{Backends}.

(** [core::pixel_format_desc(core::pixel_format::bgra)] with its planes *)
Inductive pixel_format := bgra.

Record plane := {
  plane_width : Z;
  plane_height : Z;
  plane_channels : Z
}.

Record pixel_format_desc := {
  format : pixel_format;
  planes : list plane
}.

Inductive const_frame :=
| const_frame_empty
| make_const_frame (image : image_buffer) (audio : audio_buffer)
    (desc : pixel_format_desc).

(** *** [struct mixer::impl] ([graph_] only feeds diagnostics) *)
Record impl := {
  audio_mixer_ : audio_mixer;
  image_mixer_ : image_mixer
}.

Inductive log_entry := current_exception.

(** The mix lambda works on the members, on the process-wide aspect
    ratio (kept as the two operands of the division of doubles) and on
    the log. *)
Record mix_state := {
  this : impl;
  current_aspect_ratio : option (Z * Z);
  log : list log_entry
}.

Definition on_audio {A} (m : M audio_mixer A) : M mix_state A :=
  λ st, let '(r, a) := m (audio_mixer_ (this st)) in
        (r, {| this := {| audio_mixer_ := a;
                          image_mixer_ := image_mixer_ (this st) |};
               current_aspect_ratio := current_aspect_ratio st;
               log := log st |}).

Definition on_image {A} (m : M image_mixer A) : M mix_state A :=
  λ st, let '(r, i) := m (image_mixer_ (this st)) in
        (r, {| this := {| audio_mixer_ := audio_mixer_ (this st);
                          image_mixer_ := i |};
               current_aspect_ratio := current_aspect_ratio st;
               log := log st |}).

Definition set_current_aspect_ratio (w h : Z) (st : mix_state) : mix_state :=
  {| this := this st; current_aspect_ratio := Some (w, h); log := log st |}.

Definition log_current_exception (st : mix_state) : mix_state :=
  {| this := this st; current_aspect_ratio := current_aspect_ratio st;
     log := log st ++ [current_exception] |}.

(** [frame.second.transform().image_transform.layer_depth = 1] *)
Definition with_layer_depth (d : Z) (f : draw_frame frame_content)
  : draw_frame frame_content :=
  {| content_ := content_ f;
     transform :=
       {| image_transform :=
            set_layer_depth d (image_transform (transform f));
          audio_transform_ := audio_transform_ (transform f) |} |}.

(** The body of the loop over the lambda's own copy of [frames]. *)
Definition mix_layer (frame : Z * draw_frame frame_content)
  : M mix_state unit :=
  do! on_audio (audio_accept frame.2) in
  let frame' := with_layer_depth 1 frame.2 in
  on_image (image_accept frame').

Definition mix_try (frames : gmap Z (draw_frame frame_content))
    (format_desc : video_format_desc) : M mix_state const_frame :=
  do! modify (set_current_aspect_ratio (square_width format_desc)
                                       (square_height format_desc)) in
  do! for_each (elements frames) mix_layer in
  let! image := on_image (image_finalize format_desc) in
  let! audio := on_audio (audio_finalize format_desc) in
  let desc :=
    {| format := bgra;
       planes := [] ++ [ {| plane_width := width format_desc;
                            plane_height := height format_desc;
                            plane_channels := 4 |} ] |} in
  ret (make_const_frame image audio desc).

Definition mix_catch : M mix_state const_frame :=
  do! modify log_current_exception in
  ret const_frame_empty.

(** The lambda that [operator()] invokes on the executor. *)
Definition mix_task (frames : gmap Z (draw_frame frame_content))
    (format_desc : video_format_desc) : M mix_state const_frame :=
  try_catch (mix_try frames format_desc) mix_catch.

Definition set_master_volume (volume : float) (s : impl) : impl :=
  {| audio_mixer_ := audio_set_master_volume volume (audio_mixer_ s);
     image_mixer_ := image_mixer_ s |}.

Definition get_master_volume (s : impl) : float :=
  audio_get_master_volume (audio_mixer_ s).

(** *** The tasks the Mixer submits to its executor *)
Inductive task :=
| Mix (frames : gmap Z (draw_frame frame_content))
    (format_desc : video_format_desc)
| SetMasterVolume (volume : float)
| GetMasterVolume.

Inductive task_result :=
| Mixed (r : outcome const_frame) (ratio : option (Z * Z))
    (logged : list log_entry)
| Done
| Volume (v : float).

Definition priority_of (k : task) : task_priority :=
  match k with
  | Mix _ _ => normal_priority
  | SetMasterVolume _ | GetMasterVolume => high_priority
  end.

Definition run_task (k : task) (s : impl) : task_result * impl :=
  match k with
  | Mix frames format_desc =>
      let '(r, st) :=
        mix_task frames format_desc
          {| this := s; current_aspect_ratio := None; log := [] |} in
      (Mixed r (current_aspect_ratio st) (log st), this st)
  | SetMasterVolume volume => (Done, set_master_volume volume s)
  | GetMasterVolume => (Volume (get_master_volume s), s)
  end.

Definition executor : Type := Executor.t impl task task_result.

(** [begin_invoke] for the setter, [invoke] for mixing and the getter. *)
Definition submit (k : task) (e : executor) : nat * executor :=
  Executor.begin_invoke k (priority_of k) e.

Definition call (k : task) (e : executor) : option (task_result * executor) :=
  Executor.invoke run_task k (priority_of k) e.

(** What other threads and the worker may do between two calls of one
    caller: the worker completes a task, or a mix is requested. *)
Inductive action :=
| Work
| RequestMix (frames : gmap Z (draw_frame frame_content))
    (format_desc : video_format_desc).

Definition act (a : action) (e : executor) : executor :=
  match a with
  | Work => Executor.step run_task e
  | RequestMix frames format_desc => (submit (Mix frames format_desc) e).2
  end.

Definition acts (l : list action) (e : executor) : executor :=
  fold_left (λ e' a, act a e') l e.

(** The executors a Mixer can be in: it starts idle, and from then on
    tasks are submitted through the public operations and completed by
    the worker. *)
Inductive reachable : executor → Prop :=
| reachable_idle s :
    reachable {| Executor.state := s;
                 Executor.high := [];
                 Executor.normal := [];
                 Executor.completed := [];
                 Executor.next_ticket := 0 |}
| reachable_submit k e : reachable e → reachable (submit k e).2
| reachable_step e : reachable e → reachable (Executor.step run_task e).

(** Mixes go to the normal lane. *)
Definition only_mixes (l : list (nat * task)) : Prop :=
  Forall (λ x, priority_of x.2 = normal_priority) l.

(** A [set_master_volume(v)] that is the last task of the high lane, or
    has run with nothing submitted to the high lane since. *)
Definition volume_pending (v : float) (e : executor) : Prop :=
  (∃ pre ticket,
      Executor.high e = pre ++ [(ticket, SetMasterVolume v)]) ∨
  (Executor.high e = [] ∧ get_master_volume (Executor.state e) = v).

(** The master volume the audio mixer holds in a mix state. *)
Definition master_volume (st : mix_state) : float :=
  get_master_volume (this st).

(** A statement sequence that leaves the master volume as it was. *)
Definition keeps_volume {A} (m : M mix_state A) : Prop :=
  ∀ st, master_volume (m st).2 = master_volume st.

End Mixer.

(** *** [operator()] as its caller sees it

    [graph_] is a [diagnostics::graph], declared in
    [common/diagnostics/graph.h]; the Mixer only reports to it. *)
Class Diagnostics := {
  graph : Type;
  (** [graph_->set_value("mix-time", value)], which may throw. *)
  graph_set_value : float → M graph unit
}.

Section Operator.
Context `{Backends} `{Diagnostics}.

Record caller_state := {
  mixer_ : mix_state;
  graph_ : graph
}.

Definition on_mixer {A} (m : M mix_state A) : M caller_state A :=
  λ c, let '(r, st) := m (mixer_ c) in
       (r, {| mixer_ := st; graph_ := graph_ c |}).

Definition on_graph {A} (m : M graph A) : M caller_state A :=
  λ c, let '(r, g) := m (graph_ c) in
       (r, {| mixer_ := mixer_ c; graph_ := g |}).

(** [operator()]: the lambda is invoked on the executor; then, outside
    its try block, the time the mix took ([elapsed], in seconds, is what
    [frame_timer.elapsed()] reads) is reported to the graph as
    [elapsed * fps * 0.5] on doubles, and the frame is returned. *)
Definition mix (elapsed : float)
    (frames : gmap Z (draw_frame frame_content))
    (format_desc : video_format_desc) : M caller_state const_frame :=
  let! frame := on_mixer (mix_task frames format_desc) in
  do! on_graph
        (graph_set_value
           (PrimFloat.mul (PrimFloat.mul elapsed (fps format_desc)) 0.5)) in
  ret frame.

End Operator.
End Mixer.

(** ** Test doubles for the collaborators

    A layer that plays numbered producers and whose producer 13 throws on
    [receive], and mixers that record every frame they are handed. *)

Module Demo.

Record demo_layer := {
  foreground_ : nat;
  background_ : nat;
  frame_number_ : nat
}.

Definition faulty_producer : nat := 13.

Definition demo_receive (flags : Z) (l : demo_layer)
  : outcome (nat * nat * Z) * demo_layer :=
  if Nat.eqb (foreground_ l) faulty_producer then (Thrown, l)
  else (Returned (foreground_ l, frame_number_ l, flags),
        {| foreground_ := foreground_ l;
           background_ := background_ l;
           frame_number_ := S (frame_number_ l) |}).

Definition demo_load (producer : nat) (preview : bool) (_ : Z)
    (l : demo_layer) : demo_layer :=
  {| foreground_ := if preview then producer else foreground_ l;
     background_ := producer;
     frame_number_ := frame_number_ l |}.

Definition demo_play (l : demo_layer) : demo_layer :=
  {| foreground_ := background_ l; background_ := 0; frame_number_ := 0 |}.

Definition demo_stop (l : demo_layer) : demo_layer :=
  {| foreground_ := 0; background_ := background_ l; frame_number_ := 0 |}.

(** A tween that shows the elapsed ticks in the layer depth. *)
Definition demo_tween (time : N) (source dest : frame_transform)
    (duration : N) (_ : unit) : frame_transform :=
  set_layer_depth (Z.of_N time) source.

Definition collaborators : Collaborators :=
  {| basic_frame := nat * nat * Z;
     frame_producer := nat;
     layer := demo_layer;
     wptree := nat * nat;
     tweener := unit;
     layer_new := {| foreground_ := 0; background_ := 0; frame_number_ := 0 |};
     layer_load := demo_load;
     layer_pause := λ l, l;
     layer_play := demo_play;
     layer_stop := demo_stop;
     layer_receive := demo_receive;
     layer_foreground := foreground_;
     layer_background := background_;
     layer_info := λ l, (foreground_ l, background_ l);
     tweener_new := tt;
     tween := demo_tween;
     flags_alpha_only := 2;
     flags_deinterlace := 4 |}.

Definition playing (producer : nat) : demo_layer :=
  {| foreground_ := producer; background_ := 0; frame_number_ := 0 |}.

Definition pal : video_format_desc :=
  {| width := 720; height := 576; square_width := 1024; square_height := 576;
     fps := 25%float; field_mode := field_mode.upper |}.

Definition p720 : video_format_desc :=
  {| width := 1280; height := 720; square_width := 1280; square_height := 720;
     fps := 50%float; field_mode := field_mode.progressive |}.

Definition scaled (y : float) : frame_transform :=
  {| fill_translation := (0%float, 0%float);
     fill_scale := (1%float, y);
     opacity := 1%float;
     is_key := false;
     layer_depth := 0 |}.

(** A tween of four ticks that has run for one. *)
Definition running : @Stage.tweened_transform collaborators :=
  @Stage.Build_tweened_transform collaborators
    frame_transform_new (scaled 2%float) 4 1 tt.

(** Layer 0 plays a healthy producer and is mid-tween. *)
Definition stage_one : @Stage.impl collaborators :=
  @Stage.Build_impl collaborators {[ 0%Z := playing 7 ]} {[ 0%Z := running ]}.

(** Layer 0 is faulty, layer 1 is healthy. *)
Definition stage_fault : @Stage.impl collaborators :=
  @Stage.Build_impl collaborators
    (<[ 1%Z := playing 7 ]> {[ 0%Z := playing 13 ]}) {[ 0%Z := running ]}.

Definition stage_empty : @Stage.impl collaborators :=
  @Stage.Build_impl collaborators ∅ ∅.

(** Recording mixers: the audio mixer keeps the frames it was handed
    and the master volume, the image mixer the frames it was handed. *)
Definition recorder : Mixer.Backends :=
  {| Mixer.frame_content := nat;
     Mixer.audio_mixer := list (Mixer.draw_frame nat) * float;
     Mixer.image_mixer := list (Mixer.draw_frame nat);
     Mixer.image_buffer := list (Mixer.draw_frame nat);
     Mixer.audio_buffer := list (Mixer.draw_frame nat);
     Mixer.audio_accept := λ f, modify (λ a, (a.1 ++ [f], a.2));
     Mixer.image_accept := λ f, modify (λ i, i ++ [f]);
     Mixer.image_finalize := λ _, gets (λ i, i);
     Mixer.audio_finalize := λ _, gets fst;
     Mixer.audio_set_master_volume := λ v a, (a.1, v);
     Mixer.audio_get_master_volume := snd |}.

Definition at_depth (content : nat) (d : Z) : Mixer.draw_frame nat :=
  {| Mixer.content_ := content;
     Mixer.transform :=
       {| Mixer.image_transform := set_layer_depth d frame_transform_new;
          Mixer.audio_transform_ := {| Mixer.volume := 1%float |} |} |}.

Definition mixer_new : @Mixer.impl recorder :=
  @Mixer.Build_impl recorder ([], 1%float) [].

Definition mix_fresh : @Mixer.mix_state recorder :=
  @Mixer.Build_mix_state recorder mixer_new None [].

(** An executor with one mix waiting in the normal lane. *)
Definition mixer_busy : @Mixer.executor recorder :=
  (@Mixer.submit recorder
     (@Mixer.Mix recorder {[ 0%Z := at_depth 0 7 ]} pal)
     {| Executor.state := mixer_new;
        Executor.high := [];
        Executor.normal := [];
        Executor.completed := [];
        Executor.next_ticket := 0 |}).2.

End Demo.

(** ** Further test doubles

    A Stage that keeps a tween at an index without a layer, executors
    with work waiting, and an audio mixer that throws on content 13. *)

Module Demo2.

Import Demo.

(** Layer 1 plays; index 0 holds a tween and no layer. *)
Definition stage_orphan : @Stage.impl collaborators :=
  @Stage.Build_impl collaborators {[ 1%Z := playing 7 ]} {[ 0%Z := running ]}.

(** No layer at all, one tween. *)
Definition stage_bare : @Stage.impl collaborators :=
  @Stage.Build_impl collaborators ∅ {[ 0%Z := running ]}.

(** A Stage executor with a tick waiting behind nothing and a [play]
    in the high lane. *)
Definition stage_busy
  : Executor.t (@Stage.impl collaborators) (@Stage.task collaborators)
      (@Stage.task_result collaborators) :=
  {| Executor.state := stage_one;
     Executor.high := [(1, @Stage.Play collaborators 0)];
     Executor.normal := [(0, @Stage.Produce collaborators [0%Z] pal)];
     Executor.completed := [];
     Executor.next_ticket := 2 |}.

(** Two healthy layers, the first mid-tween, and an executor in which a
    [pause] waits in the high lane and no tick is queued. *)
Definition stage_two : @Stage.impl collaborators :=
  @Stage.Build_impl collaborators
    (<[ 1%Z := playing 8 ]> {[ 0%Z := playing 7 ]}) {[ 0%Z := running ]}.

Definition stage_waiting
  : Executor.t (@Stage.impl collaborators) (@Stage.task collaborators)
      (@Stage.task_result collaborators) :=
  {| Executor.state := stage_two;
     Executor.high := [(0, @Stage.Pause collaborators 1)];
     Executor.normal := [];
     Executor.completed := [];
     Executor.next_ticket := 1 |}.

(** A batch for both layers: layer 0 jumps to a vertical scale of 2,
    layer 1 starts a tween of three ticks towards layer depth 5. *)
Definition move_to_scale : @Stage.transform_tuple_t collaborators :=
  (0%Z, λ _ : frame_transform, scaled 2%float, 0%N, tt).

Definition move_to_depth : @Stage.transform_tuple_t collaborators :=
  (1%Z, set_layer_depth 5, 3%N, tt).

Definition fragile : Mixer.Backends :=
  {| Mixer.frame_content := nat;
     Mixer.audio_mixer := list (Mixer.draw_frame nat) * float;
     Mixer.image_mixer := list (Mixer.draw_frame nat);
     Mixer.image_buffer := list (Mixer.draw_frame nat);
     Mixer.audio_buffer := list (Mixer.draw_frame nat);
     Mixer.audio_accept :=
       λ f, if Nat.eqb (Mixer.content_ f) 13 then throw
            else modify (λ a, (a.1 ++ [f], a.2));
     Mixer.image_accept := λ f, modify (λ i, i ++ [f]);
     Mixer.image_finalize := λ _, gets (λ i, i);
     Mixer.audio_finalize := λ _, gets fst;
     Mixer.audio_set_master_volume := λ v a, (a.1, v);
     Mixer.audio_get_master_volume := snd |}.

(** A graph that keeps the values reported to it and throws on a
    value that is not a number. *)
Definition plotting : Mixer.Diagnostics :=
  {| Mixer.graph := list float;
     Mixer.graph_set_value :=
       λ v, if PrimFloat.is_nan v then throw else modify (λ g, g ++ [v]) |}.

Definition fragile_fresh : @Mixer.mix_state fragile :=
  @Mixer.Build_mix_state fragile
    (@Mixer.Build_impl fragile ([], 1%float) []) None [].

End Demo2.

(** * Properties *)

(** ** The subscript of [std::map] *)

Section Subscript.
Context {A : Type}.
Implicit Types (m : gmap Z A) (k : Z) (d a : A).

Lemma subscript_present d k m a :
  m !! k = Some a → subscript d k m = (a, m).
Proof. unfold subscript. by intros ->. Qed.

Lemma subscript_absent d k m :
  m !! k = None → subscript d k m = (d, <[k := d]> m).
Proof. unfold subscript. by intros ->. Qed.

Lemma subscript_value d k m : (subscript d k m).1 = default d (m !! k).
Proof. unfold subscript. by destruct (m !! k). Qed.

Lemma subscript_lookup d k m :
  (subscript d k m).2 !! k = Some (default d (m !! k)).
Proof.
  unfold subscript. destruct (m !! k) eqn:E; simpl; [done|].
  by rewrite lookup_insert_eq.
Qed.

Lemma subscript_lookup_ne d k j m :
  k ≠ j → (subscript d k m).2 !! j = m !! j.
Proof.
  intros Hne. unfold subscript. destruct (m !! k); simpl; [done|].
  by rewrite lookup_insert_ne.
Qed.

Lemma touch_present d k m : is_Some (m !! k) → touch d k m = m.
Proof. intros [a Ha]. unfold touch. by rewrite (subscript_present _ _ _ a). Qed.

Lemma insert_subscript d k m a :
  <[k := a]> (subscript d k m).2 = <[k := a]> m.
Proof.
  unfold subscript. destruct (m !! k); simpl; [done|].
  by rewrite insert_insert_eq.
Qed.
End Subscript.

(** ** Iteration order of [std::map] *)

Section Elements.
Context {A : Type}.

Global Instance key_le_total : Total (@key_le A).
Proof. intros x y. unfold key_le. lia. Qed.

Global Instance key_le_trans : Transitive (@key_le A).
Proof. intros x y z. unfold key_le. lia. Qed.

Lemma elements_sorted (m : gmap Z A) :
  StronglySorted (λ x y, (x.1 ≤ y.1)%Z) (elements m).
Proof. apply (StronglySorted_merge_sort key_le). Qed.

Lemma elements_Permutation (m : gmap Z A) : elements m ≡ₚ map_to_list m.
Proof. apply merge_sort_Permutation. Qed.
End Elements.

(** ** The executor *)

Module ExecutorFacts.
Section ExecutorFacts.
Context {St Task Res : Type}.
Variable run : Task → St → Res * St.
Import Executor.

Abbreviation executor := (Executor.t St Task Res).
Abbreviation step := (Executor.step run).
Abbreviation steps := (Executor.steps run).
Abbreviation wait := (Executor.wait run).

Implicit Types (e : executor) (x : Task) (ticket : nat).

Lemma step_high e ticket x h :
  high e = (ticket, x) :: h →
  step e = complete run ticket x e h (normal e).
Proof. unfold Executor.step. by intros ->. Qed.

Lemma complete_high ticket x e h n : high (complete run ticket x e h n) = h.
Proof. unfold complete. by destruct (run x (state e)). Qed.

Lemma complete_normal ticket x e h n :
  normal (complete run ticket x e h n) = n.
Proof. unfold complete. by destruct (run x (state e)). Qed.

Lemma complete_state ticket x e h n :
  state (complete run ticket x e h n) = (run x (state e)).2.
Proof. unfold complete. by destruct (run x (state e)). Qed.

Lemma complete_completed ticket x e h n :
  completed (complete run ticket x e h n) =
  (ticket, (run x (state e)).1) :: completed e.
Proof. unfold complete. by destruct (run x (state e)). Qed.

Lemma complete_next_ticket ticket x e h n :
  next_ticket (complete run ticket x e h n) = next_ticket e.
Proof. unfold complete. by destruct (run x (state e)). Qed.

Lemma step_next_ticket e : next_ticket (step e) = next_ticket e.
Proof.
  unfold Executor.step.
  destruct (high e) as [|[??]?]; [destruct (normal e) as [|[??]?]|];
    by rewrite ?complete_next_ticket.
Qed.

Lemma steps_succ k e : steps (S k) e = steps k (step e).
Proof. reflexivity. Qed.

Lemma steps_S k e : steps (S k) e = step (steps k e).
Proof. revert e. induction k as [|k IH]; intros e; [done|]. apply IH. Qed.

(** A task appended to the high lane waits behind the tasks already
    there: the worker's next steps are those it would have taken. *)
Lemma step_begin_invoke_high e x :
  high e ≠ [] →
  step (begin_invoke x high_priority e).2 =
  (begin_invoke x high_priority (step e)).2.
Proof.
  intros Hne. destruct (high e) as [|[ticket y] h] eqn:Hh; [done|].
  rewrite (step_high e ticket y h Hh).
  rewrite (step_high _ ticket y (h ++ [(next_ticket e, x)])).
  2:{ simpl. by rewrite Hh. }
  unfold begin_invoke, complete; simpl. by destruct (run y (state e)).
Qed.

Lemma steps_begin_invoke_high k e x :
  k ≤ length (high e) →
  steps k (begin_invoke x high_priority e).2 =
  (begin_invoke x high_priority (steps k e)).2.
Proof.
  revert e. induction k as [|k IH]; intros e Hk; [done|].
  destruct (high e) as [|[ticket y] h] eqn:Hh; [simpl in Hk; lia|].
  rewrite !steps_succ, step_begin_invoke_high by congruence.
  apply IH. rewrite (step_high e ticket y h Hh), complete_high.
  simpl in Hk. lia.
Qed.

Lemma steps_high_drop k e :
  k ≤ length (high e) → high (steps k e) = drop k (high e).
Proof.
  revert e. induction k as [|k IH]; intros e Hk; [done|].
  destruct (high e) as [|[ticket y] h] eqn:Hh; [simpl in Hk; lia|].
  rewrite steps_succ, IH.
  - by rewrite (step_high e ticket y h Hh), complete_high.
  - rewrite (step_high e ticket y h Hh), complete_high. simpl in Hk. lia.
Qed.

Lemma last_high_runs e pre ticket x :
  high e = pre ++ [(ticket, x)] →
  state (steps (S (length pre)) e) =
    (run x (state (steps (length pre) e))).2 ∧
  high (steps (S (length pre)) e) = [].
Proof.
  intros Hh.
  assert (high (steps (length pre) e) = [(ticket, x)]) as Hd.
  { rewrite steps_high_drop by (rewrite Hh, length_app; lia).
    by rewrite Hh, drop_app_length. }
  rewrite steps_S, (step_high _ ticket x [] Hd).
  by rewrite complete_state, complete_high.
Qed.

(** The appended task runs in the step after those, on the state they
    left, and in one piece. *)
Lemma begin_invoke_high_runs e x :
  let n := length (high e) in
  let e' := (begin_invoke x high_priority e).2 in
  state (steps (S n) e') = (run x (state (steps n e))).2 ∧
  high (steps (S n) e') = [].
Proof.
  intros n e'. subst n e'. set (n := length (high e)).
  rewrite steps_S, steps_begin_invoke_high by done.
  assert (high (steps n e) = []) as Hh.
  { unfold n. rewrite steps_high_drop by done. by rewrite drop_all. }
  rewrite (step_high _ (next_ticket (steps n e)) x []).
  2:{ simpl. by rewrite Hh. }
  by rewrite complete_state, complete_high.
Qed.

Lemma begin_invoke_high_pending k e x :
  k ≤ length (high e) →
  state (steps k (begin_invoke x high_priority e).2) = state (steps k e).
Proof. intros Hk. by rewrite steps_begin_invoke_high. Qed.

(** *** Tickets *)

Lemma wf_begin_invoke e x p : wf e → wf (begin_invoke x p e).2.
Proof.
  intros (Hh & Hn & Hc).
  assert (∀ {A} (l : list (nat * A)),
            Forall (λ y, y.1 < next_ticket e) l →
            Forall (λ y, y.1 < S (next_ticket e)) l) as Hmono.
  { intros A l HF. eapply Forall_impl; [exact HF|]. simpl. intros; lia. }
  destruct p; unfold wf; simpl; repeat split; auto;
    apply Forall_app; split; auto; repeat constructor; simpl; lia.
Qed.

Lemma wf_step e : wf e → wf (step e).
Proof.
  intros (Hh & Hn & Hc). unfold Executor.step.
  destruct (high e) as [|[ticket y] h] eqn:Eh.
  - destruct (normal e) as [|[ticket y] n] eqn:En.
    { unfold wf. rewrite Eh, En. auto. }
    apply Forall_cons in Hn as [Ht Hn].
    unfold wf. rewrite complete_high, complete_normal, complete_completed,
      complete_next_ticket. repeat split; auto.
  - apply Forall_cons in Hh as [Ht Hh].
    unfold wf. rewrite complete_high, complete_normal, complete_completed,
      complete_next_ticket. repeat split; auto.
Qed.

Lemma find_ticket_fresh ticket (cs : list (nat * Res)) :
  Forall (λ c, c.1 ≠ ticket) cs → find_ticket ticket cs = None.
Proof.
  induction 1 as [|[t r] cs Hne _ IH]; simpl; [done|].
  simpl in Hne. by apply Nat.eqb_neq in Hne as ->.
Qed.

(** *** Waiting for a task in the high lane *)

Lemma wait_high fuel pre e ticket x :
  high e = pre ++ [(ticket, x)] →
  Forall (λ c, c.1 ≠ ticket) (completed e) →
  Forall (λ y, y.1 ≠ ticket) pre →
  length pre < fuel →
  wait fuel ticket e =
  Some ((run x (state (steps (length pre) e))).1, steps (S (length pre)) e).
Proof.
  revert fuel e. induction pre as [|[t0 x0] pre IH]; intros fuel e Hh Hc Hp Hf.
  - destruct fuel as [|fuel]; [simpl in Hf; lia|].
    simpl. unfold result. rewrite (find_ticket_fresh _ _ Hc).
    rewrite (step_high e ticket x [] Hh).
    destruct fuel; simpl; unfold result;
      rewrite complete_completed; simpl; by rewrite Nat.eqb_refl.
  - destruct fuel as [|fuel]; [simpl in Hf; lia|].
    apply Forall_cons in Hp as [Hne Hp]. simpl in Hne.
    simpl Executor.wait. unfold result. rewrite (find_ticket_fresh _ _ Hc).
    rewrite (IH fuel (step e)); [done| | | |simpl in Hf; lia].
    + by rewrite (step_high e t0 x0 _ Hh), complete_high.
    + rewrite (step_high e t0 x0 _ Hh), complete_completed.
      by constructor.
    + done.
Qed.

(** [invoke] at high priority returns: the caller gets what its task
    computes on the state left by the high-priority tasks queued before
    it. *)
Lemma invoke_high e x :
  wf e →
  invoke run x high_priority e =
  Some ((run x (state (steps (length (high e)) e))).1,
        steps (S (length (high e))) (begin_invoke x high_priority e).2).
Proof.
  intros (Hh & _ & Hc).
  rewrite <- (begin_invoke_high_pending (length (high e)) e x) by done.
  unfold invoke.
  destruct (begin_invoke x high_priority e) as [ticket e'] eqn:E.
  unfold begin_invoke in E. injection E as <- <-.
  apply (wait_high _ (high e) _ (next_ticket e) x).
  - done.
  - simpl. eapply Forall_impl; [exact Hc|]. simpl. intros; lia.
  - eapply Forall_impl; [exact Hh|]. simpl. intros; lia.
  - unfold pending. simpl. rewrite length_app. simpl. lia.
Qed.

End ExecutorFacts.
End ExecutorFacts.

(** ** More on the executor *)

Module ExecutorMore.
Section ExecutorMore.
Context {St Task Res : Type}.
Variable run : Task → St → Res * St.
Import Executor.

Abbreviation executor := (Executor.t St Task Res).
Abbreviation step := (Executor.step run).
Abbreviation steps := (Executor.steps run).
Abbreviation wait := (Executor.wait run).

Implicit Types (e : executor) (x : Task) (ticket : nat).

Lemma step_normal e ticket x n :
  high e = [] → normal e = (ticket, x) :: n →
  step e = complete run ticket x e [] n.
Proof. unfold Executor.step. by intros -> ->. Qed.

(** While the high lane has tasks the normal lane waits. *)
Lemma steps_high_normal k e :
  k ≤ length (high e) → normal (steps k e) = normal e.
Proof.
  revert e. induction k as [|k IH]; intros e Hk; [done|].
  destruct (high e) as [|[ticket y] h] eqn:Hh; [simpl in Hk; lia|].
  rewrite ExecutorFacts.steps_succ, IH.
  - by rewrite (ExecutorFacts.step_high run e ticket y h Hh),
      ExecutorFacts.complete_normal.
  - rewrite (ExecutorFacts.step_high run e ticket y h Hh),
      ExecutorFacts.complete_high. simpl in Hk. lia.
Qed.

Lemma step_begin_invoke_normal e x :
  pending e ≠ 0 →
  step (begin_invoke x normal_priority e).2 =
  (begin_invoke x normal_priority (step e)).2.
Proof.
  intros Hp. unfold pending in Hp.
  destruct (high e) as [|[ticket y] h] eqn:Hh.
  - destruct (normal e) as [|[ticket y] n] eqn:Hn; [simpl in Hp; lia|].
    rewrite (step_normal e ticket y n Hh Hn).
    rewrite (step_normal _ ticket y (n ++ [(next_ticket e, x)])).
    2:{ simpl. done. }
    2:{ simpl. by rewrite Hn. }
    unfold begin_invoke, complete; simpl. by destruct (run y (state e)).
  - rewrite (ExecutorFacts.step_high run e ticket y h Hh).
    rewrite (ExecutorFacts.step_high run _ ticket y h).
    2:{ simpl. done. }
    unfold begin_invoke, complete; simpl. by destruct (run y (state e)).
Qed.

Lemma step_pending e : pending (step e) = pred (pending e).
Proof.
  unfold pending, Executor.step.
  destruct (high e) as [|[ticket y] h] eqn:Hh.
  - destruct (normal e) as [|[ticket y] n] eqn:Hn.
    + by rewrite Hh, Hn.
    + by rewrite ExecutorFacts.complete_high, ExecutorFacts.complete_normal.
  - rewrite ExecutorFacts.complete_high, ExecutorFacts.complete_normal.
    simpl. lia.
Qed.

Lemma steps_begin_invoke_normal k e x :
  k ≤ pending e →
  steps k (begin_invoke x normal_priority e).2 =
  (begin_invoke x normal_priority (steps k e)).2.
Proof.
  revert e. induction k as [|k IH]; intros e Hk; [done|].
  rewrite !ExecutorFacts.steps_succ, step_begin_invoke_normal by lia.
  apply IH. rewrite step_pending. lia.
Qed.


(** *** Waiting for a task in the normal lane *)

Lemma wait_normal n : ∀ fuel e pre ticket x,
  length (high e) + length pre = n →
  normal e = pre ++ [(ticket, x)] →
  Forall (λ c, c.1 ≠ ticket) (completed e) →
  Forall (λ y, y.1 ≠ ticket) (high e) →
  Forall (λ y, y.1 ≠ ticket) pre →
  n < fuel →
  wait fuel ticket e =
  Some ((run x (state (steps n e))).1, steps (S n) e).
Proof.
  induction n as [|n IH]; intros fuel e pre ticket x Hlen Hn Hc Hh Hp Hf.
  - destruct (high e) as [|? ?] eqn:Eh; [|simpl in Hlen; lia].
    destruct pre; [|simpl in Hlen; lia]. simpl in Hn.
    destruct fuel as [|fuel]; [lia|].
    simpl. unfold result. rewrite (ExecutorFacts.find_ticket_fresh _ _ Hc).
    rewrite (step_normal e ticket x [] Eh Hn).
    destruct fuel; simpl; unfold result;
      rewrite ExecutorFacts.complete_completed; simpl;
      by rewrite Nat.eqb_refl.
  - destruct fuel as [|fuel]; [lia|].
    simpl Executor.wait. unfold result.
    rewrite (ExecutorFacts.find_ticket_fresh _ _ Hc).
    change (wait fuel ticket (step e) =
            Some ((run x (state (steps n (step e)))).1,
                  steps (S n) (step e))).
    destruct (high e) as [|[t0 x0] h] eqn:Eh.
    + destruct pre as [|[t0 x0] pre]; [simpl in Hlen; lia|].
      apply Forall_cons in Hp as [Hne Hp]. simpl in Hne, Hn, Hlen.
      apply (IH fuel (step e) pre).
      * rewrite (step_normal e t0 x0 _ Eh Hn), ExecutorFacts.complete_high.
        simpl. lia.
      * by rewrite (step_normal e t0 x0 _ Eh Hn),
          ExecutorFacts.complete_normal.
      * rewrite (step_normal e t0 x0 _ Eh Hn),
          ExecutorFacts.complete_completed. by constructor.
      * rewrite (step_normal e t0 x0 _ Eh Hn), ExecutorFacts.complete_high.
        constructor.
      * done.
      * lia.
    + apply Forall_cons in Hh as [Hne Hh]. simpl in Hne, Hlen.
      apply (IH fuel (step e) pre).
      * rewrite (ExecutorFacts.step_high run e t0 x0 h Eh),
          ExecutorFacts.complete_high. lia.
      * by rewrite (ExecutorFacts.step_high run e t0 x0 h Eh),
          ExecutorFacts.complete_normal.
      * rewrite (ExecutorFacts.step_high run e t0 x0 h Eh),
          ExecutorFacts.complete_completed. by constructor.
      * by rewrite (ExecutorFacts.step_high run e t0 x0 h Eh),
          ExecutorFacts.complete_high.
      * done.
      * lia.
Qed.

(** [invoke] at normal priority returns: the caller gets what its task
    computes on the state left by all the tasks queued before it. *)
Lemma invoke_normal e x :
  wf e →
  invoke run x normal_priority e =
  Some ((run x (state (steps (pending e) e))).1,
        steps (S (pending e)) (begin_invoke x normal_priority e).2).
Proof.
  intros (Hh & Hn & Hc).
  assert (state (steps (pending e) (begin_invoke x normal_priority e).2) =
          state (steps (pending e) e)) as <-.
  { by rewrite steps_begin_invoke_normal. }
  unfold invoke.
  destruct (begin_invoke x normal_priority e) as [ticket e'] eqn:E.
  unfold begin_invoke in E. injection E as <- <-.
  apply (wait_normal (pending e) _ _ (normal e) (next_ticket e) x).
  - done.
  - done.
  - simpl. eapply Forall_impl; [exact Hc|]. simpl. intros; lia.
  - simpl. eapply Forall_impl; [exact Hh|]. simpl. intros; lia.
  - eapply Forall_impl; [exact Hn|]. simpl. intros; lia.
  - unfold pending. simpl. rewrite length_app. simpl. lia.
Qed.


End ExecutorMore.
End ExecutorMore.

(** ** The Stage: layer and transform maps *)

Module StageFacts.
Section StageFacts.
Context `{Collaborators}.
Import Stage.

Implicit Types (s : impl) (index i j : Z).

(** C1, as the code has it: [clear(index)] erases the layer at [index]
    and leaves every other layer and the whole transform map as they
    were; [clear()] empties the layer map and leaves the transform map
    as it was. *)
Theorem clear_erases_layers_only s index :
  layers_ (clear index s) = delete index (layers_ s) ∧
  layers_ (clear index s) !! index = None ∧
  transforms_ (clear index s) = transforms_ s ∧
  layers_ (clear_all s) = ∅ ∧
  transforms_ (clear_all s) = transforms_ s.
Proof.
  unfold clear, clear_all, set_layers; simpl.
  repeat split. apply lookup_delete_eq.
Qed.

(** Two swaps leave every index that was touched holding a layer: the
    map is the original one with default-constructed layers at the two
    indices where it had none. *)
Lemma swap_layer_twice_touch s i j :
  swap_layer i j (swap_layer i j s) =
  set_layers (λ m, touch layer_new j (touch layer_new i m)) s.
Proof.
  destruct s as [m t]. unfold swap_layer, set_layers, touch; simpl. f_equal.
  unfold subscript.
  destruct (decide (i = j)) as [->|Hne].
  - destruct (m !! j) eqn:Ej; simplify_map_eq; apply map_eq; intros k;
      destruct (decide (k = j)); simplify_map_eq; done.
  - destruct (m !! i) eqn:Ei, (m !! j) eqn:Ej; simplify_map_eq;
      apply map_eq; intros k;
      destruct (decide (k = i)), (decide (k = j)); simplify_map_eq; done.
Qed.

(** C8, as the code has it: when both indices hold a layer, two
    successive [swap_layer(i, j)] restore the Stage. *)
Theorem swap_layer_twice s i j :
  is_Some (layers_ s !! i) → is_Some (layers_ s !! j) →
  swap_layer i j (swap_layer i j s) = s.
Proof.
  intros Hi Hj. rewrite swap_layer_twice_touch.
  destruct s as [m t]. unfold set_layers; simpl in *. f_equal.
  rewrite (touch_present _ i m Hi). by apply touch_present.
Qed.

(** C9: at an index that neither map holds, [load] and
    [apply_transform] insert an entry built from a default-constructed
    one, and [foreground], [background] and [info(index)] answer with
    what a default-constructed layer gives, inserting that layer. *)
Theorem missing_index_defaults s index producer preview auto_play_delta
    transform mix_duration tween :
  layers_ s !! index = None →
  transforms_ s !! index = None →
  layers_ (load index producer preview auto_play_delta s) =
    <[index := layer_load producer preview auto_play_delta layer_new]>
      (layers_ s) ∧
  transforms_ (apply_transform index transform mix_duration tween s) =
    <[index := make_tweened_transform
                 (fetch tweened_transform_new)
                 (transform (fetch tweened_transform_new))
                 mix_duration tween]> (transforms_ s) ∧
  foreground index s =
    (layer_foreground layer_new, set_layers <[index := layer_new]> s) ∧
  background index s =
    (layer_background layer_new, set_layers <[index := layer_new]> s) ∧
  info index s =
    (layer_info layer_new, set_layers <[index := layer_new]> s).
Proof.
  intros Hl Ht.
  unfold load, on_layer, apply_transform, foreground, background, info,
    read_layer, set_layers, set_transforms; simpl.
  rewrite !(subscript_absent _ _ _ Hl), !(subscript_absent _ _ _ Ht).
  by rewrite !insert_insert_eq.
Qed.

(** *** Flags *)

Lemma interlaced_spec format_desc :
  interlaced format_desc = true ↔
  field_mode format_desc ≠ field_mode.progressive.
Proof. unfold interlaced. destruct (field_mode format_desc); naive_solver. Qed.

Lemma land_layer_flags format_desc transform :
  Z.land flags_alpha_only flags_deinterlace = 0%Z →
  Z.land (layer_flags format_desc transform) flags_deinterlace =
  if interlaced format_desc &&
     (scale_moves transform || translation_moves transform)
  then flags_deinterlace else 0%Z.
Proof.
  intros Ha. unfold layer_flags, flags_none.
  destruct (interlaced format_desc), (scale_moves transform),
    (translation_moves transform), (is_key transform); simpl;
    rewrite ?Z.land_lor_distr_l, ?Ha, ?Z.land_diag, ?Z.land_0_l,
      ?Z.lor_0_r, ?Z.lor_diag; reflexivity.
Qed.

Lemma layer_flags_deinterlace format_desc transform :
  flags_deinterlace ≠ 0%Z →
  Z.land flags_alpha_only flags_deinterlace = 0%Z →
  has_flag (layer_flags format_desc transform) flags_deinterlace = true ↔
  deinterlace_needed format_desc transform.
Proof.
  intros Hd Ha. unfold deinterlace_needed. rewrite <- interlaced_spec.
  unfold has_flag. rewrite (land_layer_flags _ _ Ha), Z.eqb_eq.
  destruct (interlaced format_desc), (scale_moves transform),
    (translation_moves transform); simpl; split;
    try done; try (intros _; by auto); try (by intros [? [?|?]]).
  all: intros E; by destruct Hd.
Qed.

(** C4: the deinterlace bit is set exactly when the format is not
    progressive and the vertical fill scale is further than 0.0001 from
    1.0 or the vertical fill translation further than 0.0001 from 0; at
    a vertical scale of 1.00005 with no vertical translation it is not
    set, at 1.01 it is. *)
Theorem deinterlace_flag format_desc transform :
  flags_deinterlace ≠ 0%Z →
  Z.land flags_alpha_only flags_deinterlace = 0%Z →
  (has_flag (layer_flags format_desc transform) flags_deinterlace = true ↔
   field_mode format_desc ≠ field_mode.progressive ∧
   (PrimFloat.ltb 0.0001
      (PrimFloat.abs (PrimFloat.sub (fill_scale transform).2 1)) = true ∨
    PrimFloat.ltb 0.0001
      (PrimFloat.abs (fill_translation transform).2) = true)) ∧
  (field_mode format_desc ≠ field_mode.progressive →
   (fill_scale transform).2 = 1.00005%float →
   (fill_translation transform).2 = 0%float →
   has_flag (layer_flags format_desc transform) flags_deinterlace = false) ∧
  (field_mode format_desc ≠ field_mode.progressive →
   (fill_scale transform).2 = 1.01%float →
   has_flag (layer_flags format_desc transform) flags_deinterlace = true).
Proof.
  intros Hd Ha.
  pose proof (layer_flags_deinterlace format_desc transform Hd Ha) as Hiff.
  unfold deinterlace_needed, scale_moves, translation_moves in Hiff.
  split; [exact Hiff|]. split.
  - intros Hi Hs Ht. apply not_true_is_false. rewrite Hiff, Hs, Ht.
    intros [_ [Hc|Hc]]; vm_compute in Hc; discriminate.
  - intros Hi Hs. rewrite Hiff, Hs. split; [done|]. left. reflexivity.
Qed.

(** *** Ticks of a tweened transform *)

Lemma tick_tick a b (t : tweened_transform) :
  tick a (tick b t) = tick (b + a) t.
Proof. unfold tick; simpl. f_equal. lia. Qed.

Lemma tick_0 (t : tweened_transform) :
  (time_ t ≤ duration_ t)%N → tick 0 t = t.
Proof. destruct t; unfold tick; simpl. intros. f_equal. lia. Qed.

(** *** One layer's share of a tick *)

Implicit Types (st : tick_state) (format_desc : video_format_desc).

Lemma tick_transform_eq index st :
  tick_transform index st =
  (Returned (fetch (tick 1 (transform_at index (this st)))),
   on_this (set_transforms
              <[index := tick 1 (transform_at index (this st))]>) st).
Proof.
  unfold tick_transform, fetch_and_tick, transform_at.
  pose proof (subscript_value tweened_transform_new index
                (transforms_ (this st))) as Hv.
  pose proof (insert_subscript tweened_transform_new index
                (transforms_ (this st))) as Hi.
  destruct (subscript _ _ _) as [t m]; simpl in *. subst t.
  unfold on_this, set_transforms; simpl. by rewrite Hi.
Qed.

Lemma produce_layer_eq format_desc index st l :
  layers_ (this st) !! index = Some l →
  let t := transform_at index (this st) in
  produce_layer format_desc index st =
  match layer_receive (layer_flags format_desc (fetch (tick 1 t))) l with
  | (Thrown, l') =>
      (Thrown,
       {| this := {| layers_ := <[index := l']> (layers_ (this st));
                     transforms_ :=
                       <[index := tick 1 t]> (transforms_ (this st)) |};
          frames := frames st;
          log := log st |})
  | (Returned frame, l') =>
      (Returned tt,
       {| this := {| layers_ := <[index := l']> (layers_ (this st));
                     transforms_ :=
                       <[index := tick (layer_ticks format_desc) t]>
                         (transforms_ (this st)) |};
          frames := <[index := layer_frame format_desc t frame]> (frames st);
          log := log st |})
  end.
Proof.
  intros Hl t. unfold produce_layer. rewrite Hl.
  unfold bind at 1. rewrite tick_transform_eq. fold t.
  unfold bind at 1, receive.
  destruct (layer_receive _ l) as [[frame|] l']; simpl; [|done].
  unfold layer_frame, layer_ticks.
  destruct (interlaced format_desc); simpl.
  - unfold bind at 1. unfold bind at 1. rewrite tick_transform_eq.
    unfold ret, modify, transform_at, on_frames, on_this, set_layers,
      set_transforms; simpl.
    rewrite lookup_insert_eq; simpl. rewrite tick_tick, insert_insert_eq.
    reflexivity.
  - unfold bind at 1. reflexivity.
Qed.

Lemma produce_layer_skip format_desc index st :
  layers_ (this st) !! index = None →
  produce_layer format_desc index st = (Returned tt, st).
Proof. intros Hl. unfold produce_layer. by rewrite Hl. Qed.

Lemma layer_step_other format_desc i j st :
  i ≠ j → view j (layer_step format_desc st i) = view j st.
Proof.
  intros Hne. unfold layer_step.
  destruct (layers_ (this st) !! i) as [l|] eqn:Hl.
  - rewrite (produce_layer_eq _ _ _ _ Hl).
    destruct (layer_receive _ l) as [[frame|] l']; unfold view; simpl;
      by rewrite !lookup_insert_ne.
  - by rewrite produce_layer_skip.
Qed.

Lemma layer_step_log format_desc i st :
  log (layer_step format_desc st i) = log st.
Proof.
  unfold layer_step.
  destruct (layers_ (this st) !! i) as [l|] eqn:Hl.
  - rewrite (produce_layer_eq _ _ _ _ Hl).
    by destruct (layer_receive _ l) as [[frame|] l'].
  - by rewrite produce_layer_skip.
Qed.

(** What a body leaves at its own index depends on that index only. *)
Lemma layer_step_at format_desc i st l :
  layers_ (this st) !! i = Some l →
  let t := default tweened_transform_new (transforms_ (this st) !! i) in
  view i (layer_step format_desc st i) =
  match layer_receive (layer_flags format_desc (fetch (tick 1 t))) l with
  | (Thrown, l') => (Some l', Some (tick 1 t), frames st !! i)
  | (Returned frame, l') =>
      (Some l', Some (tick (layer_ticks format_desc) t),
       Some (layer_frame format_desc t frame))
  end.
Proof.
  intros Hl t. unfold layer_step. rewrite (produce_layer_eq _ _ _ _ Hl).
  fold (transform_at i (this st)). unfold transform_at. fold t.
  destruct (layer_receive _ l) as [[frame|] l']; unfold view; simpl;
    by rewrite !lookup_insert_eq.
Qed.

Lemma layer_step_dom format_desc i st :
  dom (frames st) = dom (layers_ (this st)) →
  dom (layers_ (this (layer_step format_desc st i))) = dom (layers_ (this st)) ∧
  dom (frames (layer_step format_desc st i)) = dom (frames st).
Proof.
  intros Hdom. unfold layer_step.
  destruct (layers_ (this st) !! i) as [l|] eqn:Hl.
  - assert (is_Some (frames st !! i)) as Hf.
    { apply elem_of_dom. rewrite Hdom. apply elem_of_dom. eauto. }
    rewrite (produce_layer_eq _ _ _ _ Hl).
    destruct (layer_receive _ l) as [[frame|] l']; simpl;
      rewrite ?dom_insert_lookup_L; eauto.
  - by rewrite produce_layer_skip.
Qed.

(** *** The parallel section *)

Lemma parallel_for_each_state {St A} (l : list A) (body : A → M St unit)
    (σ : St) :
  (parallel_for_each l body σ).2 = fold_left (λ σ' x, (body x σ').2) l σ.
Proof.
  revert σ. induction l as [|x l IH]; intros σ; simpl; [done|].
  destruct (body x σ) as [[[]|] σ']; simpl; by rewrite <- IH.
Qed.

Lemma run_layers_other format_desc started j st :
  j ∉ started → view j (run_layers format_desc started st) = view j st.
Proof.
  revert st. induction started as [|i l IH]; intros st Hj; simpl; [done|].
  apply not_elem_of_cons in Hj as [Hne Hj].
  unfold run_layers in *; simpl. rewrite IH by done.
  by apply layer_step_other.
Qed.

Lemma run_layers_log format_desc started st :
  log (run_layers format_desc started st) = log st.
Proof.
  revert st. induction started as [|i l IH]; intros st; simpl; [done|].
  unfold run_layers in *; simpl. by rewrite IH, layer_step_log.
Qed.

Lemma run_layers_dom format_desc started st :
  dom (frames st) = dom (layers_ (this st)) →
  dom (layers_ (this (run_layers format_desc started st))) =
    dom (layers_ (this st)) ∧
  dom (frames (run_layers format_desc started st)) = dom (frames st).
Proof.
  revert st. induction started as [|i l IH]; intros st Hdom; simpl; [done|].
  unfold run_layers in *; simpl.
  destruct (layer_step_dom format_desc i st Hdom) as [Hl Hf].
  destruct (IH (layer_step format_desc st i)) as [Hl' Hf']; [congruence|].
  split; congruence.
Qed.

(** With each body started once, the layer at [i] ends the parallel
    section as its own body left it. *)
Lemma run_layers_at format_desc started i st :
  NoDup started → i ∈ started →
  ∃ st', view i st' = view i st ∧
         view i (run_layers format_desc started st) =
         view i (layer_step format_desc st' i).
Proof.
  revert st. induction started as [|j l IH]; intros st Hnd Hi.
  { by apply elem_of_nil in Hi. }
  apply NoDup_cons in Hnd as [Hj Hnd].
  unfold run_layers in *; simpl.
  destruct (decide (i = j)) as [->|Hne].
  - exists st. split; [done|].
    by apply (run_layers_other format_desc l j).
  - apply elem_of_cons in Hi as [?|Hi]; [done|].
    destruct (IH (layer_step format_desc st j) Hnd Hi) as (st' & Hv & Hr).
    exists st'. split; [|done].
    rewrite Hv. apply layer_step_other. congruence.
Qed.

Lemma layer_step_view format_desc i st st' :
  view i st = view i st' →
  view i (layer_step format_desc st i) = view i (layer_step format_desc st' i).
Proof.
  unfold view at 1 2. intros Hv. injection Hv as Hl Ht Hf.
  destruct (layers_ (this st) !! i) as [l|] eqn:El.
  - rewrite (layer_step_at _ _ _ l El).
    rewrite (layer_step_at _ _ _ l) by congruence.
    rewrite Ht, Hf. reflexivity.
  - unfold layer_step. rewrite !produce_layer_skip by congruence.
    unfold view. simpl. congruence.
Qed.

Lemma run_layers_view format_desc started i st :
  NoDup started → i ∈ started →
  view i (run_layers format_desc started st) =
  view i (layer_step format_desc st i).
Proof.
  intros Hnd Hi.
  destruct (run_layers_at format_desc started i st Hnd Hi) as (st' & Hv & ->).
  by apply layer_step_view.
Qed.

(** *** The whole tick *)

Lemma for_each_modify {St A} (f : A → St → St) (l : list A) (σ : St) :
  for_each l (λ x, modify (f x)) σ =
  (Returned tt, fold_left (λ σ' x, f x σ') l σ).
Proof.
  revert σ. induction l as [|x l IH]; intros σ; simpl; [done|].
  unfold bind, modify at 1. by rewrite IH.
Qed.

Lemma elem_of_elements_keys {A} (m : gmap Z A) k :
  k ∈ (elements m).*1 ↔ is_Some (m !! k).
Proof.
  unfold elements. rewrite merge_sort_Permutation.
  rewrite list_elem_of_fmap. split.
  - intros ([k' a] & -> & Hin). apply elem_of_map_to_list in Hin. eauto.
  - intros [a Ha]. exists (k, a). split; [done|].
    by apply elem_of_map_to_list.
Qed.

Lemma fill_lookup {A B} (e : B) (l : list (Z * A)) (f : gmap Z B) k :
  fold_left (λ f' x, <[x.1 := e]> f') l f !! k =
  if decide (k ∈ l.*1) then Some e else f !! k.
Proof.
  revert f. induction l as [|[j a] l IH]; intros f.
  { simpl. destruct (decide (k ∈ [])) as [Hk|Hk]; [|done].
    by apply elem_of_nil in Hk. }
  rewrite fmap_cons. simpl. rewrite IH.
  destruct (decide (k ∈ l.*1)) as [Hin|Hnin];
    destruct (decide (k ∈ j :: l.*1)) as [Hin'|Hnin']; [done| | |].
  - exfalso. apply Hnin'. by apply list_elem_of_further.
  - apply elem_of_cons in Hin' as [->|?]; [|done].
    by rewrite lookup_insert_eq.
  - rewrite lookup_insert_ne; [done|].
    intros ->. apply Hnin'. apply list_elem_of_here.
Qed.

Lemma produce_try_eq started format_desc s :
  produce_try started format_desc (tick_begin s) =
  parallel_for_each started (produce_layer format_desc) (placeholders s).
Proof.
  unfold produce_try, bind, gets; simpl.
  rewrite for_each_modify. f_equal.
  unfold placeholders, tick_begin.
  assert (∀ l st, fold_left (λ σ' (x : Z * layer),
                     on_frames <[x.1 := draw_frame_empty]> σ') l st =
                  on_frames (λ f, fold_left (λ f' x,
                     <[x.1 := draw_frame_empty]> f') l f) st) as ->.
  { induction l as [|x l IH]; intros st; simpl; [by destruct st|].
    by rewrite IH. }
  unfold on_frames; simpl. f_equal.
  apply map_eq. intros k. rewrite fill_lookup, lookup_fmap, lookup_empty.
  case_decide as Hk.
  - apply elem_of_elements_keys in Hk as [l ->]. done.
  - destruct (layers_ s !! k) eqn:E; [|done].
    exfalso. apply Hk, elem_of_elements_keys. eauto.
Qed.

Lemma parallel_for_each_run started format_desc st :
  (parallel_for_each started (produce_layer format_desc) st).2 =
  run_layers format_desc started st.
Proof. apply parallel_for_each_state. Qed.

(** Whether or not a body threw, the caller gets the frames. *)
Lemma produce_eq started format_desc s :
  let st := run_layers format_desc started (placeholders s) in
  produce started format_desc s =
  match (produce_try started format_desc (tick_begin s)).1 with
  | Returned _ => (Returned (frames st), st)
  | Thrown =>
      (Returned (frames st), log_current_exception (on_this clear_all st))
  end.
Proof.
  intros st. unfold produce, produce_task, try_catch, bind at 1.
  rewrite produce_try_eq.
  pose proof (parallel_for_each_run started format_desc (placeholders s))
    as Hst.
  fold st in Hst.
  destruct (parallel_for_each _ _ _) as [[[]|] st2]; simpl in *; subst st2;
    reflexivity.
Qed.

Lemma produce_returns started format_desc s :
  ∃ st, produce started format_desc s = (Returned (frames st), st).
Proof.
  rewrite produce_eq. cbv zeta.
  destruct (produce_try _ _ _).1; [by eexists|].
  by exists (log_current_exception
               (on_this clear_all
                  (run_layers format_desc started (placeholders s)))).
Qed.

Lemma placeholders_view i s :
  view i (placeholders s) =
  (layers_ s !! i, transforms_ s !! i,
   (λ _, draw_frame_empty) <$> layers_ s !! i).
Proof. unfold view, placeholders; simpl. by rewrite lookup_fmap. Qed.

(** C5: a layer whose body was started once and whose [receive]
    returned has, under a format that is not progressive, its transform
    advanced by two ticks and as its frame the interlacing of the
    received frame under the first and under the second snapshot; under
    a progressive format the transform is advanced by one tick and the
    frame is the received frame under the one snapshot. *)
Theorem produce_layer_frame started format_desc s i l frame l' :
  NoDup started → i ∈ started →
  layers_ s !! i = Some l →
  layer_receive
    (layer_flags format_desc (fetch (tick 1 (transform_at i s)))) l =
    (Returned frame, l') →
  ∃ fs st,
    produce started format_desc s = (Returned fs, st) ∧
    (field_mode format_desc ≠ field_mode.progressive →
     transforms_ (this st) !! i = Some (tick 2 (transform_at i s)) ∧
     fs !! i =
       Some (interlace
               (make_draw_frame frame (fetch (tick 1 (transform_at i s))))
               (make_draw_frame frame (fetch (tick 2 (transform_at i s))))
               (field_mode format_desc))) ∧
    (field_mode format_desc = field_mode.progressive →
     transforms_ (this st) !! i = Some (tick 1 (transform_at i s)) ∧
     fs !! i =
       Some (make_draw_frame frame (fetch (tick 1 (transform_at i s))))).
Proof.
  intros Hnd Hi Hl Hrecv.
  pose proof (run_layers_view format_desc started i (placeholders s) Hnd Hi)
    as Hv.
  rewrite (layer_step_at _ _ _ l) in Hv by done. simpl in Hv.
  fold (transform_at i s) in Hv. rewrite Hrecv in Hv.
  unfold view in Hv. injection Hv as Hvl Hvt Hvf.
  set (st := run_layers format_desc started (placeholders s)) in *.
  assert (∃ st', produce started format_desc s = (Returned (frames st), st')
                 ∧ transforms_ (this st') = transforms_ (this st))
    as (st' & Hp & Ht).
  { rewrite produce_eq. fold st.
    destruct (produce_try _ _ _).1; eauto. }
  exists (frames st), st'. split; [done|]. rewrite Ht, Hvt, Hvf.
  unfold layer_ticks, layer_frame.
  split; intros Hm.
  - apply interlaced_spec in Hm. by rewrite Hm.
  - assert (interlaced format_desc = false) as ->; [|done].
    unfold interlaced. by rewrite Hm.
Qed.

Lemma run_layers_transform format_desc started i s t :
  NoDup started →
  transforms_ s !! i = Some t →
  let ts := transforms_ (this (run_layers format_desc started (placeholders s)))
  in ts !! i = Some t ∨ ts !! i = Some (tick 1 t) ∨ ts !! i = Some (tick 2 t).
Proof.
  intros Hnd Ht ts. subst ts.
  set (st := run_layers format_desc started (placeholders s)).
  destruct (decide (i ∈ started)) as [Hi|Hi].
  - pose proof (run_layers_view format_desc started i (placeholders s) Hnd Hi)
      as Hv. fold st in Hv.
    destruct (layers_ s !! i) as [l|] eqn:Hl.
    + rewrite (layer_step_at _ _ _ l) in Hv by done. simpl in Hv.
      rewrite Ht in Hv. simpl in Hv. unfold layer_ticks in Hv.
      destruct (layer_receive _ l) as [[frame|] l'];
        destruct (interlaced format_desc);
        unfold view in Hv; injection Hv as _ Hvt _; auto.
    + unfold layer_step in Hv. rewrite produce_layer_skip in Hv by done.
      unfold view in Hv. injection Hv as _ Hvt _. left.
      by rewrite Hvt.
  - pose proof (run_layers_other format_desc started i (placeholders s) Hi)
      as Hv. fold st in Hv.
    unfold view in Hv. injection Hv as _ Hvt _. left. by rewrite Hvt.
Qed.

(** C2, as the code has it: when a body throws, [operator()] still
    returns; the frame map it returns has an entry for every layer the
    Stage held, the empty frame for a layer whose [receive] threw; the
    layer map is emptied and one error is logged. *)
Theorem produce_fault started format_desc s :
  NoDup started →
  (produce_try started format_desc (tick_begin s)).1 = Thrown →
  ∃ fs st,
    produce started format_desc s = (Returned fs, st) ∧
    dom fs = dom (layers_ s) ∧
    layers_ (this st) = ∅ ∧
    log st = [current_exception] ∧
    ∀ i l,
      i ∈ started → layers_ s !! i = Some l →
      (layer_receive
         (layer_flags format_desc (fetch (tick 1 (transform_at i s)))) l).1
        = Thrown →
      fs !! i = Some draw_frame_empty.
Proof.
  intros Hnd Hthrown. rewrite produce_eq, Hthrown. cbv zeta.
  set (st := run_layers format_desc started (placeholders s)).
  eexists _, _. split; [reflexivity|].
  destruct (run_layers_dom format_desc started (placeholders s)) as [_ Hf].
  { unfold placeholders; simpl. apply dom_fmap_L. }
  fold st in Hf. repeat split.
  - rewrite Hf. unfold placeholders; simpl. apply dom_fmap_L.
  - simpl. unfold st. by rewrite run_layers_log.
  - intros i l Hi Hl Hrecv.
    pose proof (run_layers_view format_desc started i (placeholders s) Hnd Hi)
      as Hv. fold st in Hv.
    rewrite (layer_step_at _ _ _ l) in Hv by done. simpl in Hv.
    fold (transform_at i s) in Hv.
    destruct (layer_receive _ l) as [[frame|] l']; [done|].
    unfold view in Hv. injection Hv as _ _ Hvf.
    by rewrite Hvf, lookup_fmap, Hl.
Qed.

(** C10: the handler of a failed tick empties the layer map and leaves
    the transform map as the parallel section left it; every transform
    the Stage held is still there, advanced by the ticks its layer's
    body took before the exception (none, one or two), and loading a
    layer afterwards does not touch it. *)
Theorem fault_keeps_transforms started format_desc s st' :
  NoDup started →
  produce_try started format_desc (tick_begin s) = (Thrown, st') →
  ∃ fs st,
    produce started format_desc s = (Returned fs, st) ∧
    layers_ (this st) = ∅ ∧
    transforms_ (this st) = transforms_ (this st') ∧
    (∀ i t,
       transforms_ s !! i = Some t →
       transforms_ (this st) !! i = Some t ∨
       transforms_ (this st) !! i = Some (tick 1 t) ∨
       transforms_ (this st) !! i = Some (tick 2 t)) ∧
    (∀ index producer preview auto_play_delta,
       transforms_ (load index producer preview auto_play_delta (this st)) =
       transforms_ (this st)).
Proof.
  intros Hnd Htry. rewrite produce_eq, Htry. cbv zeta. simpl fst. cbv iota.
  assert (st' = run_layers format_desc started (placeholders s)) as ->.
  { rewrite <- parallel_for_each_run, <- produce_try_eq. by rewrite Htry. }
  eexists _, _. split; [reflexivity|]. simpl. repeat split.
  intros i t Ht. by apply run_layers_transform.
Qed.

Lemma apply_transform_layers index transform mix_duration tween s :
  layers_ (apply_transform index transform mix_duration tween s) = layers_ s.
Proof. done. Qed.

Lemma apply_transform_lookup index transform mix_duration tween s j :
  transforms_ (apply_transform index transform mix_duration tween s) !! j =
  if decide (index = j) then
    Some (make_tweened_transform
            (fetch (transform_at index s))
            (transform (fetch (transform_at index s))) mix_duration tween)
  else transforms_ s !! j.
Proof.
  unfold apply_transform, set_transforms, transform_at; simpl.
  pose proof (subscript_value tweened_transform_new index (transforms_ s))
    as Hv.
  pose proof (insert_subscript tweened_transform_new index (transforms_ s))
    as Hi.
  destruct (subscript _ _ _) as [t m]; simpl in *. subst t. rewrite Hi.
  by rewrite lookup_insert.
Qed.

Lemma apply_transforms_app (l1 l2 : list transform_tuple_t) s :
  apply_transforms (l1 ++ l2) s = apply_transforms l2 (apply_transforms l1 s).
Proof. unfold apply_transforms. by rewrite fold_left_app. Qed.

Lemma apply_transforms_cons (entry : transform_tuple_t)
    (batch : list transform_tuple_t) s :
  apply_transforms (entry :: batch) s =
  apply_transforms batch
    (apply_transform entry.1.1.1 entry.1.1.2 entry.1.2 entry.2 s).
Proof. by destruct entry as [[[index f] d] tw]. Qed.

Lemma apply_transforms_layers (batch : list transform_tuple_t) s :
  layers_ (apply_transforms batch s) = layers_ s.
Proof.
  revert s. induction batch as [|entry batch IH]; intros s; [done|].
  by rewrite apply_transforms_cons, IH.
Qed.

Lemma apply_transforms_other (batch : list transform_tuple_t) s j :
  j ∉ batch_indices batch →
  transforms_ (apply_transforms batch s) !! j = transforms_ s !! j.
Proof.
  revert s. induction batch as [|entry batch IH]; intros s Hj; [done|].
  unfold batch_indices in Hj. rewrite fmap_cons in Hj.
  apply not_elem_of_cons in Hj as [Hne Hj].
  rewrite apply_transforms_cons, IH by done.
  rewrite apply_transform_lookup. by destruct (decide (entry.1.1.1 = j)).
Qed.

Lemma entry_tween_lookup (entry : transform_tuple_t) s :
  transforms_ (apply_transform entry.1.1.1 entry.1.1.2 entry.1.2 entry.2 s)
    !! entry.1.1.1 = Some (entry_tween entry s).
Proof.
  rewrite apply_transform_lookup.
  destruct (decide (entry.1.1.1 = entry.1.1.1)); [|done].
  by destruct entry as [[[index f] d] tw].
Qed.

(** The entry that is the last one for its index decides the tween at
    that index, starting from the snapshot the entries before it left. *)
Lemma apply_transforms_entry (pre post : list transform_tuple_t)
    (entry : transform_tuple_t) s :
  entry.1.1.1 ∉ batch_indices post →
  transforms_ (apply_transforms (pre ++ entry :: post) s) !! entry.1.1.1 =
  Some (entry_tween entry (apply_transforms pre s)).
Proof.
  intros Hpost.
  rewrite apply_transforms_app, apply_transforms_cons.
  rewrite apply_transforms_other by done. apply entry_tween_lookup.
Qed.

Lemma entry_tween_fresh (pre : list transform_tuple_t)
    (entry : transform_tuple_t) s :
  entry.1.1.1 ∉ batch_indices pre →
  entry_tween entry (apply_transforms pre s) = entry_tween entry s.
Proof.
  intros Hpre. destruct entry as [[[index f] d] tw]. simpl in *.
  unfold entry_tween, transform_at. by rewrite apply_transforms_other.
Qed.

(** The frame a tick stores for a layer whose body was started once and
    whose [receive] returned. *)
Lemma produce_frame_at started format_desc s i l frame l' :
  NoDup started → i ∈ started →
  layers_ s !! i = Some l →
  layer_receive
    (layer_flags format_desc (fetch (tick 1 (transform_at i s)))) l =
    (Returned frame, l') →
  ∃ fs st,
    produce started format_desc s = (Returned fs, st) ∧
    fs !! i = Some (layer_frame format_desc (transform_at i s) frame).
Proof.
  intros Hnd Hi Hl Hrecv.
  pose proof (run_layers_view format_desc started i (placeholders s) Hnd Hi)
    as Hv.
  rewrite (layer_step_at _ _ _ l) in Hv by done. simpl in Hv.
  fold (transform_at i s) in Hv. rewrite Hrecv in Hv.
  unfold view in Hv. injection Hv as _ _ Hvf.
  rewrite produce_eq. cbv zeta.
  destruct (produce_try _ _ _).1; eexists _, _; split; try reflexivity; done.
Qed.

(** *** Batches on the executor *)

(** C6: [apply_transforms] submits one task to the high lane.  While
    the tasks queued before it run, the Stage is in the states it would
    have been in without the batch.  The step after them replaces the
    tweens of all entries: every index the batch does not list keeps
    its transform, and every entry that is the last one for its index
    has stored its tween, built from the snapshot the entries before it
    left.  Every later state comes from that one by whole tasks, so no
    tick starts on a part of the batch: the tick requested next runs on
    the Stage with the whole batch applied, and the frame of a listed
    layer is built from the entry's tween. *)
Theorem apply_transforms_atomic
    (e : Executor.t impl task task_result) transforms :
  let e' := (submit (ApplyTransforms transforms) e).2 in
  let n := length (Executor.high e) in
  let before := Executor.state (Executor.steps run_task n e) in
  let after := Executor.state (Executor.steps run_task (S n) e') in
  length (Executor.high e') = S n ∧
  Executor.normal e' = Executor.normal e ∧
  (∀ k, k ≤ n →
        Executor.state (Executor.steps run_task k e') =
        Executor.state (Executor.steps run_task k e)) ∧
  after = apply_transforms transforms before ∧
  layers_ after = layers_ before ∧
  (∀ j, j ∉ batch_indices transforms →
        transforms_ after !! j = transforms_ before !! j) ∧
  (∀ pre entry post,
     transforms = pre ++ entry :: post →
     entry.1.1.1 ∉ batch_indices post →
     transforms_ after !! entry.1.1.1 =
       Some (entry_tween entry (apply_transforms pre before)) ∧
     (entry.1.1.1 ∉ batch_indices pre →
      transforms_ after !! entry.1.1.1 = Some (entry_tween entry before))) ∧
  (∀ k, Executor.steps run_task (S n + k) e' =
        Executor.steps run_task k (Executor.steps run_task (S n) e')) ∧
  (Executor.wf e → Executor.normal e = [] →
   ∀ started format_desc,
     call (Produce started format_desc) e' =
     Some ((run_task (Produce started format_desc) after).1,
           Executor.steps run_task (S (S n))
             (submit (Produce started format_desc) e').2)) ∧
  (Executor.wf e → Executor.normal e = [] →
   ∀ started format_desc pre entry post l frame l',
     transforms = pre ++ entry :: post →
     entry.1.1.1 ∉ batch_indices post →
     NoDup started → entry.1.1.1 ∈ started →
     layers_ before !! entry.1.1.1 = Some l →
     layer_receive
       (layer_flags format_desc
          (fetch (tick 1 (entry_tween entry (apply_transforms pre before)))))
       l = (Returned frame, l') →
     ∃ fs logged e'',
       call (Produce started format_desc) e' =
         Some (Frames (Returned fs) logged, e'') ∧
       fs !! entry.1.1.1 =
         Some (layer_frame format_desc
                 (entry_tween entry (apply_transforms pre before)) frame)).
Proof.
  intros e' n before after.
  assert (after = apply_transforms transforms before) as Hafter.
  { subst after before e' n. unfold submit. simpl priority_of.
    by destruct (ExecutorFacts.begin_invoke_high_runs run_task e
                   (ApplyTransforms transforms)) as [-> _]. }
  assert (length (Executor.high e') = S n) as Hlen.
  { subst e' n. unfold submit; simpl. rewrite length_app. simpl. lia. }
  assert (∀ pre entry post,
            transforms = pre ++ entry :: post →
            entry.1.1.1 ∉ batch_indices post →
            transforms_ after !! entry.1.1.1 =
            Some (entry_tween entry (apply_transforms pre before))) as Hentry.
  { intros pre entry post -> Hpost. rewrite Hafter.
    by apply apply_transforms_entry. }
  assert (Executor.wf e → Executor.normal e = [] →
          ∀ started format_desc,
            call (Produce started format_desc) e' =
            Some ((run_task (Produce started format_desc) after).1,
                  Executor.steps run_task (S (S n))
                    (submit (Produce started format_desc) e').2)) as Hcall.
  { intros Hwf Hnormal started format_desc. unfold call. simpl priority_of.
    assert (Executor.wf e') as Hwf'
      by (by apply ExecutorFacts.wf_begin_invoke).
    rewrite (ExecutorMore.invoke_normal run_task e' _ Hwf').
    assert (Executor.pending e' = S n) as ->.
    { unfold Executor.pending. rewrite Hlen.
      subst e'. unfold submit. simpl. rewrite Hnormal. simpl. lia. }
    reflexivity. }
  split; [exact Hlen|]. split; [done|].
  split.
  { intros k Hk. by apply ExecutorFacts.begin_invoke_high_pending. }
  split; [exact Hafter|].
  split; [rewrite Hafter; apply apply_transforms_layers|].
  split.
  { intros j Hj. rewrite Hafter. by apply apply_transforms_other. }
  split.
  { intros pre entry post Heq Hpost. split; [by eapply Hentry|].
    intros Hpre. rewrite (Hentry pre entry post Heq Hpost).
    by rewrite entry_tween_fresh. }
  split.
  { intros k. generalize e'. generalize (S n).
    intros m. induction m as [|m IH]; intros e0; [done|].
    simpl. apply IH. }
  split; [exact Hcall|].
  intros Hwf Hnormal started format_desc pre entry post l frame l'
    Heq Hpost Hnd Hin Hl Hrecv.
  rewrite (Hcall Hwf Hnormal).
  assert (layers_ after !! entry.1.1.1 = Some l) as Hl'.
  { by rewrite Hafter, apply_transforms_layers. }
  assert (transform_at entry.1.1.1 after =
          entry_tween entry (apply_transforms pre before)) as Ht.
  { unfold transform_at. by rewrite (Hentry pre entry post Heq Hpost). }
  destruct (produce_frame_at started format_desc after entry.1.1.1 l frame l'
              Hnd Hin Hl') as (fs & st & Hp & Hfs).
  { by rewrite Ht. }
  exists fs, (log st). eexists. split; [|by rewrite Hfs, Ht].
  simpl. by rewrite Hp.
Qed.

End StageFacts.
End StageFacts.

(** ** The Mixer *)

Module MixerFacts.
Section MixerFacts.
Context `{Mixer.Backends}.
Import Mixer.

Implicit Types (st : mix_state) (s : impl) (e : executor).

(** *** The master volume across a mix *)

Section Volume.
(** What the Mixer expects of the audio mixer: the getter returns what
    the setter stored, and mixing does not change it. *)
Hypothesis get_set : ∀ v a,
  audio_get_master_volume (audio_set_master_volume v a) = v.
Hypothesis accept_keeps : ∀ f a,
  audio_get_master_volume (audio_accept f a).2 = audio_get_master_volume a.
Hypothesis finalize_keeps : ∀ format_desc a,
  audio_get_master_volume (audio_finalize format_desc a).2 =
  audio_get_master_volume a.

Lemma keeps_volume_bind {A B} (m : M mix_state A) (k : A → M mix_state B) :
  keeps_volume m → (∀ a, keeps_volume (k a)) → keeps_volume (bind m k).
Proof.
  intros Hm Hk st. unfold bind. specialize (Hm st).
  destruct (m st) as [[a|] st']; simpl in *; [|done].
  by rewrite Hk.
Qed.

Lemma keeps_volume_ret {A} (a : A) : keeps_volume (ret a).
Proof. done. Qed.

Lemma keeps_volume_try_catch {A} (m h : M mix_state A) :
  keeps_volume m → keeps_volume h → keeps_volume (try_catch m h).
Proof.
  intros Hm Hh st. unfold try_catch. specialize (Hm st).
  destruct (m st) as [[a|] st']; simpl in *; [done|].
  by rewrite Hh.
Qed.

Lemma keeps_volume_for_each {A} (l : list A) (body : A → M mix_state unit) :
  (∀ x, keeps_volume (body x)) → keeps_volume (for_each l body).
Proof.
  intros Hb. induction l as [|x l IH]; simpl; [done|].
  apply keeps_volume_bind; auto.
Qed.

Lemma keeps_volume_on_image {A} (m : M image_mixer A) :
  keeps_volume (on_image m).
Proof. intros st. unfold on_image. by destruct (m _). Qed.

Lemma keeps_volume_on_audio {A} (m : M audio_mixer A) :
  (∀ a, audio_get_master_volume (m a).2 = audio_get_master_volume a) →
  keeps_volume (on_audio m).
Proof.
  intros Hm st. unfold on_audio, master_volume, get_master_volume.
  specialize (Hm (audio_mixer_ (this st))).
  by destruct (m _).
Qed.

Lemma keeps_volume_mix_task frames format_desc :
  keeps_volume (mix_task frames format_desc).
Proof.
  unfold mix_task, mix_try, mix_catch, mix_layer.
  apply keeps_volume_try_catch;
    repeat first
      [ apply keeps_volume_bind; [|intros ?]
      | apply keeps_volume_for_each; intros ?
      | apply keeps_volume_on_image
      | apply keeps_volume_on_audio; auto
      | apply keeps_volume_ret
      | done ].
Qed.

Lemma run_task_mix_volume frames format_desc s :
  get_master_volume (run_task (Mix frames format_desc) s).2 =
  get_master_volume s.
Proof.
  unfold run_task.
  pose proof (keeps_volume_mix_task frames format_desc
                {| this := s; current_aspect_ratio := None; log := [] |})
    as Hk.
  by destruct (mix_task _ _ _).
Qed.

Lemma reachable_wf e : reachable e → Executor.wf e.
Proof.
  induction 1 as [s|k e _ IH|e _ IH].
  - repeat split; constructor.
  - by apply ExecutorFacts.wf_begin_invoke.
  - by apply ExecutorFacts.wf_step.
Qed.

Lemma step_only_mixes e :
  only_mixes (Executor.normal e) →
  only_mixes (Executor.normal (Executor.step run_task e)).
Proof.
  intros Hn. unfold Executor.step.
  destruct (Executor.high e) as [|[t x] h].
  - destruct (Executor.normal e) as [|[t x] n] eqn:En.
    { by rewrite En. }
    rewrite ExecutorFacts.complete_normal.
    by apply Forall_cons in Hn as [_ Hn].
  - by rewrite ExecutorFacts.complete_normal.
Qed.

Lemma submit_only_mixes k e :
  only_mixes (Executor.normal e) →
  only_mixes (Executor.normal (submit k e).2).
Proof.
  intros Hn. unfold submit, Executor.begin_invoke.
  destruct (priority_of k) eqn:Hk; simpl; [done|].
  apply Forall_app. split; [done|]. by repeat constructor.
Qed.

Lemma reachable_only_mixes e :
  reachable e → only_mixes (Executor.normal e).
Proof.
  induction 1 as [s|k e _ IH|e _ IH].
  - constructor.
  - by apply submit_only_mixes.
  - by apply step_only_mixes.
Qed.

Lemma step_volume_pending v e :
  only_mixes (Executor.normal e) →
  volume_pending v e → volume_pending v (Executor.step run_task e).
Proof using get_set accept_keeps finalize_keeps.
  intros Hn [(pre & t & Hh)|[Hh Hv]].
  - destruct pre as [|[t0 x0] pre].
    + right. rewrite (ExecutorFacts.step_high run_task e t _ [] Hh).
      rewrite ExecutorFacts.complete_high, ExecutorFacts.complete_state.
      split; [done|]. simpl. unfold get_master_volume, set_master_volume.
      simpl. apply get_set.
    + left. exists pre, t.
      rewrite (ExecutorFacts.step_high run_task e t0 x0 _ Hh).
      by rewrite ExecutorFacts.complete_high.
  - right. unfold Executor.step. rewrite Hh.
    destruct (Executor.normal e) as [|[t x] n]; [done|].
    rewrite ExecutorFacts.complete_high, ExecutorFacts.complete_state.
    split; [done|].
    apply Forall_cons in Hn as [Hx _]. simpl in Hx.
    destruct x; try discriminate. by rewrite run_task_mix_volume.
Qed.

Lemma act_invariant v a e :
  Executor.wf e → only_mixes (Executor.normal e) → volume_pending v e →
  Executor.wf (act a e) ∧ only_mixes (Executor.normal (act a e)) ∧
  volume_pending v (act a e).
Proof using get_set accept_keeps finalize_keeps.
  intros Hwf Hn Hv. destruct a as [|frames format_desc].
  - change (act Work e) with (Executor.step run_task e).
    split; [by apply ExecutorFacts.wf_step|].
    split; [by apply step_only_mixes|by apply step_volume_pending].
  - change (act (RequestMix frames format_desc) e)
      with (submit (Mix frames format_desc) e).2.
    split; [by apply ExecutorFacts.wf_begin_invoke|].
    split; [by apply submit_only_mixes|].
    destruct Hv as [Hv|Hv]; [by left|by right].
Qed.

Lemma acts_invariant v l e :
  Executor.wf e → only_mixes (Executor.normal e) → volume_pending v e →
  Executor.wf (acts l e) ∧ only_mixes (Executor.normal (acts l e)) ∧
  volume_pending v (acts l e).
Proof using get_set accept_keeps finalize_keeps.
  revert e. induction l as [|a l IH]; intros e Hwf Hn Hv; [done|].
  destruct (act_invariant v a e Hwf Hn Hv) as (Hwf' & Hn' & Hv').
  by apply (IH (act a e)).
Qed.

Lemma volume_pending_drained v e :
  volume_pending v e →
  get_master_volume
    (Executor.state
       (Executor.steps run_task (length (Executor.high e)) e)) = v.
Proof using get_set.
  intros [(pre & t & Hh)|[Hh Hv]].
  - rewrite Hh, length_app, Nat.add_1_r.
    destruct (ExecutorFacts.last_high_runs run_task e pre t _ Hh) as [-> _].
    simpl. unfold get_master_volume, set_master_volume. simpl.
    apply get_set.
  - by rewrite Hh.
Qed.

(** C7: from any executor the Mixer can be in, [set_master_volume(v)]
    followed, after any steps of the worker and any requests to mix,
    by [get_master_volume()] returns [v]; the getter's wait ends. *)
Theorem volume_read_after_write e v l :
  reachable e →
  ∃ e',
    call GetMasterVolume (acts l (submit (SetMasterVolume v) e).2) =
    Some (Volume v, e').
Proof using get_set accept_keeps finalize_keeps.
  intros Hr.
  destruct (acts_invariant v l (submit (SetMasterVolume v) e).2)
    as (Hwf & Hn & Hv).
  { apply ExecutorFacts.wf_begin_invoke. by apply reachable_wf. }
  { apply (submit_only_mixes (SetMasterVolume v)).
    by apply reachable_only_mixes. }
  { left. by exists (Executor.high e), (Executor.next_ticket e). }
  set (e2 := acts l (submit (SetMasterVolume v) e).2) in *.
  unfold call. simpl priority_of.
  rewrite (ExecutorFacts.invoke_high run_task e2 GetMasterVolume Hwf).
  eexists. f_equal. f_equal. simpl. f_equal.
  by apply volume_pending_drained.
Qed.
End Volume.

End MixerFacts.

(** *** What the mixers are handed

    With the recording mixers, the frames handed to the audio mixer
    and to the image mixer can be read off after the mix. *)

Import Mixer.

Lemma recorder_loop (l : list (Z * draw_frame nat))
    (st : @mix_state Demo.recorder) :
  for_each l (@mix_layer Demo.recorder) st =
  (Returned tt,
   @Build_mix_state Demo.recorder
     (@Build_impl Demo.recorder
        ((audio_mixer_ (this st)).1 ++ l.*2, (audio_mixer_ (this st)).2)
        (image_mixer_ (this st) ++
           (@with_layer_depth Demo.recorder 1 <$> l.*2)))
     (current_aspect_ratio st) (log st)).
Proof.
  revert st. induction l as [|[k f] l IH]; intros [[[a v] i] r lg].
  - simpl. by rewrite !app_nil_r.
  - simpl. unfold bind at 1. unfold mix_layer at 1.
    unfold bind at 1, on_audio at 1, on_image at 1. simpl.
    rewrite IH. simpl.
    by rewrite <- !(app_assoc (A := draw_frame nat)).
Qed.

Lemma recorder_mix (frames : gmap Z (draw_frame nat)) format_desc
    (st : @mix_state Demo.recorder) :
  (@mix_task Demo.recorder frames format_desc st).2 =
  @Build_mix_state Demo.recorder
    (@Build_impl Demo.recorder
       ((audio_mixer_ (this st)).1 ++ (elements frames).*2,
        (audio_mixer_ (this st)).2)
       (image_mixer_ (this st) ++
          (@with_layer_depth Demo.recorder 1 <$> (elements frames).*2)))
    (Some (square_width format_desc, square_height format_desc)) (log st).
Proof.
  unfold mix_task, try_catch, mix_try, bind, modify.
  rewrite recorder_loop. reflexivity.
Qed.

(** C3, as the code has it: the frames are visited in ascending key
    order; each is handed to the audio mixer with the layer depth it
    came with, and to the image mixer with layer depth 1. *)
Theorem mix_hands_over (frames : gmap Z (draw_frame nat)) format_desc
    (st : @mix_state Demo.recorder) :
  let st' := (@mix_task Demo.recorder frames format_desc st).2 in
  StronglySorted (λ x y, (x.1 ≤ y.1)%Z) (elements frames) ∧
  (audio_mixer_ (this st')).1 =
    (audio_mixer_ (this st)).1 ++ (elements frames).*2 ∧
  image_mixer_ (this st') =
    image_mixer_ (this st) ++
      (@with_layer_depth Demo.recorder 1 <$> (elements frames).*2) ∧
  Forall (λ f, layer_depth (image_transform (transform f)) = 1%Z)
    (@with_layer_depth Demo.recorder 1 <$> (elements frames).*2).
Proof.
  intros st'. subst st'. split; [apply elements_sorted|].
  rewrite recorder_mix. simpl.
  split; [done|]. split; [done|].
  apply Forall_fmap, Forall_true. done.
Qed.

End MixerFacts.

(** ** The properties on the test doubles *)

Module Examples.
Import Demo.

Local Existing Instance collaborators.

(** C1: in a Stage whose layer 0 is mid-tween, [clear(0)] and [clear()]
    both leave the tween of layer 0 in the transform map. *)
Lemma clear_keeps_transform :
  Stage.layers_ (Stage.clear 0 stage_one) !! 0%Z = None ∧
  Stage.transforms_ (Stage.clear 0 stage_one) !! 0%Z = Some running ∧
  Stage.transforms_ (Stage.clear_all stage_one) !! 0%Z = Some running.
Proof. vm_compute. done. Qed.

(** C2: layer 0 throws; the frame map that comes back holds the empty
    frame for layer 0 and the frame of layer 1. *)
Lemma produce_fault_frames :
  (Stage.produce_try [0%Z; 1%Z] pal (Stage.tick_begin stage_fault)).1
    = Thrown ∧
  ∃ fs st,
    Stage.produce [0%Z; 1%Z] pal stage_fault = (Returned fs, st) ∧
    fs !! 0%Z = Some Stage.draw_frame_empty ∧
    is_Some (fs !! 1%Z) ∧
    fs ≠ ∅.
Proof.
  split; [by vm_compute|].
  destruct (Stage.produce [0%Z; 1%Z] pal stage_fault) as [r st] eqn:E.
  vm_compute in E. injection E as <- <-.
  eexists _, _. split; [reflexivity|].
  split; [by vm_compute|]. split; [by eexists|].
  intros Hempty. apply (f_equal (λ m, m !! 0%Z)) in Hempty.
  vm_compute in Hempty. discriminate.
Qed.

(** C8: two swaps on a Stage without layers leave a layer at index 0. *)
Lemma swap_layer_twice_creates :
  Stage.layers_ stage_empty !! 0%Z = None ∧
  Stage.layers_ (Stage.swap_layer 0 1 (Stage.swap_layer 0 1 stage_empty))
    !! 0%Z = Some layer_new.
Proof. vm_compute. done. Qed.

Lemma deinterlace_flag_witness :
  has_flag (Stage.layer_flags pal (scaled 1.01)) flags_deinterlace = true ∧
  has_flag (Stage.layer_flags pal (scaled 1.00005)) flags_deinterlace = false.
Proof.
  split.
  - apply (StageFacts.deinterlace_flag pal (scaled 1.01));
      [discriminate|reflexivity|discriminate|reflexivity].
  - apply (StageFacts.deinterlace_flag pal (scaled 1.00005));
      [discriminate|reflexivity|discriminate|reflexivity|reflexivity].
Defined.

Lemma produce_layer_frame_witness :
  ∃ fs st,
    Stage.produce [0%Z] pal stage_one = (Returned fs, st) ∧
    Stage.transforms_ (Stage.this st) !! 0%Z = Some (Stage.tick 2 running) ∧
    fs !! 0%Z =
      Some (Stage.interlace
              (Stage.make_draw_frame (7, 0, 0%Z)
                 (Stage.fetch (Stage.tick 1 running)))
              (Stage.make_draw_frame (7, 0, 0%Z)
                 (Stage.fetch (Stage.tick 2 running)))
              field_mode.upper).
Proof.
  destruct (StageFacts.produce_layer_frame [0%Z] pal stage_one 0
              (playing 7) (7, 0, 0%Z)
              {| foreground_ := 7; background_ := 0; frame_number_ := 1 |})
    as (fs & st & Hp & Hi & _).
  - apply NoDup_singleton.
  - apply list_elem_of_here.
  - reflexivity.
  - reflexivity.
  - exists fs, st. split; [exact Hp|]. apply Hi. discriminate.
Defined.

Lemma produce_fault_witness :
  ∃ fs st,
    Stage.produce [0%Z; 1%Z] pal stage_fault = (Returned fs, st) ∧
    dom fs = dom (Stage.layers_ stage_fault) ∧
    Stage.layers_ (Stage.this st) = ∅ ∧
    Stage.log st = [Stage.current_exception].
Proof.
  destruct (StageFacts.produce_fault [0%Z; 1%Z] pal stage_fault)
    as (fs & st & Hp & Hd & Hl & Hlog & _).
  - apply NoDup_cons. split; [|apply NoDup_singleton].
    intros Hin. apply list_elem_of_singleton in Hin. discriminate.
  - vm_compute. reflexivity.
  - exists fs, st. auto.
Defined.

Lemma fault_keeps_transforms_witness :
  ∃ fs st,
    Stage.produce [0%Z; 1%Z] pal stage_fault = (Returned fs, st) ∧
    Stage.layers_ (Stage.this st) = ∅ ∧
    (Stage.transforms_ (Stage.this st) !! 0%Z = Some running ∨
     Stage.transforms_ (Stage.this st) !! 0%Z = Some (Stage.tick 1 running) ∨
     Stage.transforms_ (Stage.this st) !! 0%Z = Some (Stage.tick 2 running)).
Proof.
  destruct (StageFacts.fault_keeps_transforms [0%Z; 1%Z] pal stage_fault
              (Stage.produce_try [0%Z; 1%Z] pal
                 (Stage.tick_begin stage_fault)).2)
    as (fs & st & Hp & Hl & _ & Ht & _).
  - apply NoDup_cons. split; [|apply NoDup_singleton].
    intros Hin. apply list_elem_of_singleton in Hin. discriminate.
  - vm_compute. reflexivity.
  - exists fs, st. split; [exact Hp|]. split; [exact Hl|].
    apply Ht. reflexivity.
Defined.

Lemma swap_layer_twice_witness :
  Stage.swap_layer 0 1 (Stage.swap_layer 0 1 stage_fault) = stage_fault.
Proof.
  apply StageFacts.swap_layer_twice.
  - exists (playing 13). reflexivity.
  - exists (playing 7). reflexivity.
Defined.

Lemma missing_index_defaults_witness :
  Stage.layers_ (Stage.load 5 7 false 0 stage_one) =
    <[5%Z := layer_load 7 false 0 layer_new]> (Stage.layers_ stage_one) ∧
  Stage.foreground 5 stage_one =
    (layer_foreground layer_new,
     Stage.set_layers <[5%Z := layer_new]> stage_one).
Proof.
  destruct (StageFacts.missing_index_defaults stage_one 5 7 false 0
              (λ t, t) 0 tt) as (Hl & _ & Hf & _).
  - reflexivity.
  - reflexivity.
  - split; [exact Hl|exact Hf].
Defined.

(** C3: a frame that comes with layer depth 7 is handed to the audio
    mixer with layer depth 7. *)
Lemma audio_sees_supplied_depth :
  (Mixer.audio_mixer_
     (Mixer.this
        (@Mixer.mix_task recorder {[ 0%Z := at_depth 0 7 ]} pal
           mix_fresh).2)).1
    = [at_depth 0 7] ∧
  layer_depth (Mixer.image_transform (Mixer.transform (at_depth 0 7))) ≠ 1%Z.
Proof. split; [by vm_compute|discriminate]. Qed.

Lemma volume_read_after_write_witness :
  ∃ e',
    @Mixer.call recorder (@Mixer.GetMasterVolume recorder)
      (@Mixer.acts recorder
         [@Mixer.RequestMix recorder {[ 2%Z := at_depth 1 0 ]} pal;
          @Mixer.Work recorder]
         (@Mixer.submit recorder (@Mixer.SetMasterVolume recorder 0.3)
            mixer_busy).2)
    = Some (@Mixer.Volume recorder 0.3, e').
Proof.
  apply (@MixerFacts.volume_read_after_write recorder).
  - intros v a. reflexivity.
  - intros f a. reflexivity.
  - intros format_desc a. reflexivity.
  - apply Mixer.reachable_submit, Mixer.reachable_idle.
Defined.

End Examples.

(** ** More on the Stage *)

Module StageMore.
Section StageMore.
Context `{Collaborators}.
Import Stage.

Implicit Types (s : impl) (st : tick_state) (index i j : Z).
Implicit Types (format_desc : video_format_desc) (started : list Z).

(** *** Production ticks *)

Lemma parallel_for_each_idle {St A} (l : list A) (body : A → M St unit)
    (σ : St) :
  (∀ x, body x σ = (Returned tt, σ)) →
  parallel_for_each l body σ = (Returned tt, σ).
Proof.
  intros Hb. induction l as [|x l IH]; simpl; [done|]. by rewrite Hb.
Qed.

Lemma placeholders_no_layers s : layers_ s = ∅ → placeholders s = tick_begin s.
Proof.
  intros Hl. unfold placeholders, tick_begin. by rewrite Hl, fmap_empty.
Qed.

Lemma produce_without_layers started format_desc s :
  layers_ s = ∅ →
  produce started format_desc s = (Returned ∅, tick_begin s).
Proof.
  intros Hl.
  assert (parallel_for_each started (produce_layer format_desc) (tick_begin s)
          = (Returned tt, tick_begin s)) as Hrun.
  { apply parallel_for_each_idle. intros i.
    apply StageFacts.produce_layer_skip. simpl. by rewrite Hl. }
  pose proof (StageFacts.produce_eq started format_desc s) as Hp.
  cbv zeta in Hp. rewrite Hp.
  rewrite StageFacts.produce_try_eq, <- StageFacts.parallel_for_each_run.
  rewrite (placeholders_no_layers s Hl), Hrun. reflexivity.
Qed.

Lemma layer_step_layers_dom format_desc i st :
  dom (layers_ (this (layer_step format_desc st i))) = dom (layers_ (this st)).
Proof.
  unfold layer_step.
  destruct (layers_ (this st) !! i) as [l|] eqn:Hl.
  - rewrite (StageFacts.produce_layer_eq _ _ _ _ Hl).
    destruct (layer_receive _ l) as [[frame|] l']; simpl;
      apply dom_insert_lookup_L; eauto.
  - by rewrite StageFacts.produce_layer_skip.
Qed.

Lemma layer_step_transforms_dom format_desc i st :
  dom (transforms_ (this st)) ⊆
    dom (transforms_ (this (layer_step format_desc st i))) ∧
  dom (transforms_ (this (layer_step format_desc st i))) ⊆
    dom (transforms_ (this st)) ∪ dom (layers_ (this st)).
Proof.
  unfold layer_step.
  destruct (layers_ (this st) !! i) as [l|] eqn:Hl.
  - assert (i ∈ dom (layers_ (this st))) as Hi by (apply elem_of_dom; eauto).
    rewrite (StageFacts.produce_layer_eq _ _ _ _ Hl).
    destruct (layer_receive _ l) as [[frame|] l']; simpl;
      rewrite dom_insert_L; split; intros k Hk;
      rewrite ?elem_of_union, ?elem_of_singleton in *;
      try (destruct Hk as [->|Hk]); auto.
  - rewrite StageFacts.produce_layer_skip by done.
    split; intros k Hk; rewrite ?elem_of_union; auto.
Qed.

Lemma run_layers_layers_dom format_desc started st :
  dom (layers_ (this (run_layers format_desc started st))) =
  dom (layers_ (this st)).
Proof.
  revert st. induction started as [|i l IH]; intros st; [done|].
  unfold run_layers in *. simpl. by rewrite IH, layer_step_layers_dom.
Qed.

Lemma run_layers_transforms_dom format_desc started st :
  dom (transforms_ (this st)) ⊆
    dom (transforms_ (this (run_layers format_desc started st))) ∧
  dom (transforms_ (this (run_layers format_desc started st))) ⊆
    dom (transforms_ (this st)) ∪ dom (layers_ (this st)).
Proof.
  revert st. induction started as [|i l IH]; intros st.
  { split; intros k Hk; rewrite ?elem_of_union; auto. }
  unfold run_layers in *. simpl.
  destruct (layer_step_transforms_dom format_desc i st) as [Hlo Hhi].
  destruct (IH (layer_step format_desc st i)) as [Hlo' Hhi'].
  rewrite layer_step_layers_dom in Hhi'.
  split; intros k Hk.
  - by apply Hlo', Hlo.
  - apply Hhi' in Hk. apply elem_of_union in Hk as [Hk|Hk].
    + by apply Hhi.
    + apply elem_of_union. by right.
Qed.

Lemma run_layers_absent format_desc started i st :
  layers_ (this st) !! i = None →
  view i (run_layers format_desc started st) = view i st.
Proof.
  revert st. induction started as [|j l IH]; intros st Hl; [done|].
  unfold run_layers in *. simpl.
  assert (view i (layer_step format_desc st j) = view i st) as Hv.
  { destruct (decide (j = i)) as [->|Hne].
    - unfold layer_step. by rewrite StageFacts.produce_layer_skip.
    - by apply StageFacts.layer_step_other. }
  rewrite IH; [done|].
  unfold view in Hv. injection Hv as Hv _ _. by rewrite Hv.
Qed.

(** The state a tick ends in, whichever way the parallel section ended. *)
Lemma produce_state started format_desc s :
  let st := run_layers format_desc started (placeholders s) in
  (produce started format_desc s).1 = Returned (frames st) ∧
  transforms_ (this (produce started format_desc s).2) = transforms_ (this st) ∧
  ((produce_try started format_desc (tick_begin s)).1 = Returned tt →
   (produce started format_desc s).2 = st).
Proof.
  intros st. pose proof (StageFacts.produce_eq started format_desc s) as Hp.
  cbv zeta in Hp. fold st in Hp. rewrite Hp.
  destruct (produce_try _ _ _).1 as [[]|]; simpl; auto.
  repeat split; done.
Qed.

Lemma produce_keys_aux started format_desc s :
  ∃ fs st,
    produce started format_desc s = (Returned fs, st) ∧
    dom fs = dom (layers_ s).
Proof.
  destruct (produce_state started format_desc s) as (Hr & _ & _).
  destruct (produce started format_desc s) as [r st] eqn:E. simpl in Hr.
  subst r. eexists _, _. split; [reflexivity|].
  destruct (StageFacts.run_layers_dom format_desc started (placeholders s))
    as [_ Hf].
  { unfold placeholders; simpl. apply dom_fmap_L. }
  rewrite Hf. unfold placeholders; simpl. apply dom_fmap_L.
Qed.

(** X1: whatever bodies were started and however they ended, a tick
    returns a frame map, and its keys are the indices of the layers the
    Stage held when the tick began: two runs of the parallel section
    over the same Stage give frame maps with the same keys. *)
Theorem produce_keys started started' format_desc s :
  ∃ fs fs' st st',
    produce started format_desc s = (Returned fs, st) ∧
    produce started' format_desc s = (Returned fs', st') ∧
    dom fs = dom (layers_ s) ∧
    dom fs' = dom fs.
Proof.
  destruct (produce_keys_aux started format_desc s) as (fs & st & Hp & Hd).
  destruct (produce_keys_aux started' format_desc s) as (fs' & st' & Hp' & Hd').
  exists fs, fs', st, st'. repeat split; congruence.
Qed.

(** X2: a tick in which no body throws logs nothing and keeps every
    layer: the layer map has the keys it had. *)
Theorem produce_no_fault started format_desc s :
  (produce_try started format_desc (tick_begin s)).1 = Returned tt →
  log (produce started format_desc s).2 = [] ∧
  dom (layers_ (this (produce started format_desc s).2)) = dom (layers_ s).
Proof.
  intros Hok.
  destruct (produce_state started format_desc s) as (_ & _ & Hst).
  rewrite (Hst Hok). split.
  - by rewrite StageFacts.run_layers_log.
  - by rewrite run_layers_layers_dom.
Qed.

(** X3: a tick of a Stage without layers returns the empty frame map,
    logs nothing and leaves the Stage as it was, whatever transforms it
    holds. *)
Theorem produce_empty started format_desc s :
  layers_ s = ∅ →
  run_task (Produce started format_desc) s = (Frames (Returned ∅) [], s).
Proof.
  intros Hl. unfold run_task. by rewrite produce_without_layers.
Qed.

(** X4: after a tick in which a body threw, every further tick returns
    the empty frame map and changes nothing, until a layer is loaded. *)
Theorem produce_after_fault started format_desc s started' format_desc' :
  (produce_try started format_desc (tick_begin s)).1 = Thrown →
  let s' := this (produce started format_desc s).2 in
  produce started' format_desc' s' = (Returned ∅, tick_begin s').
Proof.
  intros Hthrown s'. apply produce_without_layers. subst s'.
  pose proof (StageFacts.produce_eq started format_desc s) as Hp.
  cbv zeta in Hp. rewrite Hp, Hthrown. reflexivity.
Qed.

(** X5: a tick does not advance a transform stored at an index that
    holds no layer. *)
Theorem produce_orphan_transform started format_desc s i :
  layers_ s !! i = None →
  transforms_ (this (produce started format_desc s).2) !! i =
  transforms_ s !! i.
Proof.
  intros Hl.
  destruct (produce_state started format_desc s) as (_ & -> & _).
  pose proof (run_layers_absent format_desc started i (placeholders s) Hl)
    as Hv.
  unfold view in Hv. by injection Hv as _ Hv _.
Qed.

(** X6: a tick removes no transform, and the only transforms it creates
    are at indices that hold a layer. *)
Theorem produce_transform_keys started format_desc s :
  dom (transforms_ s) ⊆
    dom (transforms_ (this (produce started format_desc s).2)) ∧
  dom (transforms_ (this (produce started format_desc s).2)) ⊆
    dom (transforms_ s) ∪ dom (layers_ s).
Proof.
  destruct (produce_state started format_desc s) as (_ & -> & _).
  apply (run_layers_transforms_dom format_desc started (placeholders s)).
Qed.

(** X7: in a tick without exception, a layer whose body was started once
    has been asked for a frame once, also under an interlaced format:
    the layer map holds the layer as that one [receive] left it. *)
Theorem produce_receives_once started format_desc s i l frame l' :
  NoDup started → i ∈ started →
  layers_ s !! i = Some l →
  layer_receive
    (layer_flags format_desc (fetch (tick 1 (transform_at i s)))) l =
    (Returned frame, l') →
  (produce_try started format_desc (tick_begin s)).1 = Returned tt →
  layers_ (this (produce started format_desc s).2) !! i = Some l'.
Proof.
  intros Hnd Hi Hl Hrecv Hok.
  destruct (produce_state started format_desc s) as (_ & _ & Hst).
  rewrite (Hst Hok).
  pose proof (StageFacts.run_layers_view format_desc started i
                (placeholders s) Hnd Hi) as Hv.
  rewrite (StageFacts.layer_step_at _ _ _ l) in Hv by done. simpl in Hv.
  fold (transform_at i s) in Hv. rewrite Hrecv in Hv.
  unfold view in Hv. by injection Hv as Hv _ _.
Qed.

(** X8: a tick after [clear_transforms(i)] builds the frame of layer [i]
    from a default-constructed transform, whatever tween the layer had. *)
Theorem clear_transforms_then_produce started format_desc s i l frame l' :
  NoDup started → i ∈ started →
  layers_ s !! i = Some l →
  layer_receive
    (layer_flags format_desc (fetch (tick 1 tweened_transform_new))) l =
    (Returned frame, l') →
  ∃ fs st,
    produce started format_desc (clear_transforms i s) = (Returned fs, st) ∧
    fs !! i = Some (layer_frame format_desc tweened_transform_new frame) ∧
    transforms_ (this st) !! i =
      Some (tick (layer_ticks format_desc) tweened_transform_new).
Proof.
  intros Hnd Hi Hl Hrecv.
  set (s' := clear_transforms i s).
  destruct (produce_state started format_desc s') as (Hr & Ht & _).
  destruct (produce started format_desc s') as [r st] eqn:E. simpl in *.
  subst r. eexists _, _. split; [reflexivity|]. rewrite Ht.
  pose proof (StageFacts.run_layers_view format_desc started i
                (placeholders s') Hnd Hi) as Hv.
  rewrite (StageFacts.layer_step_at _ _ _ l) in Hv by done. simpl in Hv.
  rewrite lookup_delete_eq in Hv. simpl in Hv. rewrite Hrecv in Hv.
  unfold view in Hv. by injection Hv as _ Hvt Hvf.
Qed.

(** *** Flags *)

Lemma land_layer_flags_alpha format_desc transform :
  Z.land flags_deinterlace flags_alpha_only = 0%Z →
  Z.land (layer_flags format_desc transform) flags_alpha_only =
  if is_key transform then flags_alpha_only else 0%Z.
Proof.
  intros Ha. unfold layer_flags, flags_none.
  destruct (interlaced format_desc), (scale_moves transform),
    (translation_moves transform), (is_key transform); simpl;
    rewrite ?Z.land_lor_distr_l, ?Ha, ?Z.land_diag, ?Z.land_0_l,
      ?Z.lor_0_r, ?Z.lor_diag; reflexivity.
Qed.

(** X9: the alpha-only bit is passed to [receive] exactly when the
    snapshot is a key, under every format; under a progressive format
    nothing else is passed. *)
Theorem alpha_only_flag format_desc transform :
  flags_alpha_only ≠ 0%Z →
  Z.land flags_deinterlace flags_alpha_only = 0%Z →
  (has_flag (layer_flags format_desc transform) flags_alpha_only = true ↔
   is_key transform = true) ∧
  (field_mode format_desc = field_mode.progressive →
   layer_flags format_desc transform =
   if is_key transform then flags_alpha_only else flags_none).
Proof.
  intros Hne Ha. split.
  - unfold has_flag. rewrite (land_layer_flags_alpha _ _ Ha), Z.eqb_eq.
    destruct (is_key transform); split; done.
  - intros Hp. unfold layer_flags, interlaced. rewrite Hp. simpl.
    by destruct (is_key transform).
Qed.

(** *** Transforms *)

(** X10: a batch touches the transforms of the listed indices only: the
    layers and every transform at an index not in the batch are as
    before, and every listed index has a transform afterwards. *)
Theorem apply_transforms_frame (batch : list transform_tuple_t) s :
  layers_ (apply_transforms batch s) = layers_ s ∧
  (∀ j, j ∉ (λ x : transform_tuple_t, x.1.1.1) <$> batch →
        transforms_ (apply_transforms batch s) !! j = transforms_ s !! j) ∧
  (∀ j, j ∈ (λ x : transform_tuple_t, x.1.1.1) <$> batch →
        is_Some (transforms_ (apply_transforms batch s) !! j)).
Proof.
  revert s. induction batch as [|[[[index f] d] tw] batch IH]; intros s.
  { split; [done|]. split; [done|]. intros j Hj. by apply elem_of_nil in Hj. }
  change (apply_transforms (((index, f, d, tw)) :: batch) s)
    with (apply_transforms batch (apply_transform index f d tw s)).
  destruct (IH (apply_transform index f d tw s)) as (Hl & Hother & Hin).
  rewrite fmap_cons. simpl. split; [|split].
  - by rewrite Hl.
  - intros j Hj. apply not_elem_of_cons in Hj as [Hne Hj].
    rewrite Hother by done. rewrite StageFacts.apply_transform_lookup.
    by destruct (decide (index = j)).
  - intros j Hj.
    destruct (decide (j ∈ (λ x : transform_tuple_t, x.1.1.1) <$> batch))
      as [Hjb|Hjb]; [by apply Hin|].
    apply elem_of_cons in Hj as [->|Hj]; [|done].
    rewrite Hother by done. rewrite StageFacts.apply_transform_lookup.
    destruct (decide (index = index)); [by eexists|done].
Qed.

(** X11: a batch is the same as its entries applied one after the other
    by [apply_transform], in the order of the vector; an index listed
    twice ends with the tween of its last entry, which starts from the
    snapshot the earlier entry left. *)
Theorem apply_transforms_sequence (batch : list transform_tuple_t)
    index transform mix_duration tween s :
  apply_transforms (batch ++ [(index, transform, mix_duration, tween)]) s =
    apply_transform index transform mix_duration tween
      (apply_transforms batch s) ∧
  transforms_
    (apply_transforms (batch ++ [(index, transform, mix_duration, tween)]) s)
    !! index =
  Some (make_tweened_transform
          (fetch (transform_at index (apply_transforms batch s)))
          (transform (fetch (transform_at index (apply_transforms batch s))))
          mix_duration tween).
Proof.
  rewrite StageFacts.apply_transforms_app.
  change (apply_transforms [(index, transform, mix_duration, tween)]
            (apply_transforms batch s))
    with (apply_transform index transform mix_duration tween
            (apply_transforms batch s)).
  split; [done|]. rewrite StageFacts.apply_transform_lookup.
  by destruct (decide (index = index)).
Qed.

(** *** Layers *)

Lemma swap_layer_lookup index other_index s k :
  layers_ (swap_layer index other_index s) !! k =
  if decide (k = other_index) then
    Some (default layer_new (layers_ s !! index))
  else if decide (k = index) then
    Some (default layer_new (layers_ s !! other_index))
  else layers_ s !! k.
Proof.
  destruct s as [m t]. unfold swap_layer, set_layers, subscript; simpl.
  destruct (decide (index = other_index)) as [->|Hne].
  - destruct (m !! other_index) eqn:Ej; simplify_map_eq;
      destruct (decide (k = other_index)); simplify_map_eq; done.
  - destruct (m !! index) eqn:Ei, (m !! other_index) eqn:Ej; simplify_map_eq;
      destruct (decide (k = other_index)), (decide (k = index));
      simplify_map_eq; done.
Qed.

(** X12: [swap_layer(i, j)] puts at [i] the layer that was at [j] and at
    [j] the layer that was at [i], a default-constructed layer standing
    in for a missing one; no other layer moves, and the transforms stay
    at their indices. *)
Theorem swap_layer_exchanges s i j :
  layers_ (swap_layer i j s) !! j = Some (default layer_new (layers_ s !! i)) ∧
  layers_ (swap_layer i j s) !! i = Some (default layer_new (layers_ s !! j)) ∧
  (∀ k, k ≠ i → k ≠ j → layers_ (swap_layer i j s) !! k = layers_ s !! k) ∧
  transforms_ (swap_layer i j s) = transforms_ s.
Proof.
  split; [|split; [|split]].
  - rewrite swap_layer_lookup. by destruct (decide (j = j)).
  - rewrite swap_layer_lookup.
    destruct (decide (i = j)) as [->|]; [done|].
    by destruct (decide (i = i)).
  - intros k Hi Hj. rewrite swap_layer_lookup.
    by destruct (decide (k = j)), (decide (k = i)).
  - done.
Qed.

(** X13: the order of the two indices does not matter. *)
Theorem swap_layer_comm s i j : swap_layer i j s = swap_layer j i s.
Proof.
  destruct s as [m t].
  assert (layers_ (swap_layer i j {| layers_ := m; transforms_ := t |}) =
          layers_ (swap_layer j i {| layers_ := m; transforms_ := t |})) as Hl.
  { apply map_eq. intros k. rewrite !swap_layer_lookup.
    destruct (decide (k = j)) as [Hj|Hj], (decide (k = i)) as [Hi|Hi];
      subst; done. }
  unfold swap_layer, set_layers in *. simpl in *. by rewrite Hl.
Qed.



(** X15: [foreground], [background] and [info(index)] leave the Stage
    as it was exactly when the index holds a layer, and then answer from
    that layer. *)
Theorem read_changes_iff_missing index s :
  ((foreground index s).2 = s ↔ is_Some (layers_ s !! index)) ∧
  ((background index s).2 = s ↔ is_Some (layers_ s !! index)) ∧
  ((info index s).2 = s ↔ is_Some (layers_ s !! index)) ∧
  (∀ l, layers_ s !! index = Some l →
        (foreground index s).1 = layer_foreground l ∧
        (background index s).1 = layer_background l ∧
        (info index s).1 = layer_info l).
Proof.
  assert (∀ {A} (method : layer → A),
            (read_layer index method s).2 = s ↔ is_Some (layers_ s !! index))
    as Hread.
  { intros A method. unfold read_layer, subscript.
    destruct s as [m t]. simpl.
    destruct (m !! index) as [l|] eqn:E; simpl; unfold set_layers; simpl.
    - split; [eauto|done].
    - split; [|by intros [? ?]].
      intros Heq. injection Heq as Heq.
      apply (f_equal (λ m', m' !! index)) in Heq.
      rewrite lookup_insert_eq, E in Heq. done. }
  unfold foreground, background, info.
  split; [apply Hread|]. split; [apply Hread|]. split; [apply Hread|].
  intros l Hl. unfold read_layer.
  by rewrite (subscript_present _ _ _ _ Hl).
Qed.

Lemma on_layer_lookup index method s k :
  layers_ (on_layer index method s) !! k =
  if decide (index = k) then Some (method (default layer_new (layers_ s !! index)))
  else layers_ s !! k.
Proof.
  unfold on_layer, set_layers; simpl.
  pose proof (subscript_value layer_new index (layers_ s)) as Hv.
  pose proof (insert_subscript layer_new index (layers_ s)) as Hi.
  destruct (subscript _ _ _) as [l m]; simpl in *. subst l.
  by rewrite Hi, lookup_insert.
Qed.

Lemma on_layer_local index method s :
  layers_ (on_layer index method s) !! index =
    Some (method (default layer_new (layers_ s !! index))) ∧
  (∀ k, k ≠ index → layers_ (on_layer index method s) !! k = layers_ s !! k) ∧
  transforms_ (on_layer index method s) = transforms_ s.
Proof.
  split; [|split; [|done]].
  - rewrite on_layer_lookup. by destruct (decide (index = index)).
  - intros k Hk. rewrite on_layer_lookup. by destruct (decide (index = k)).
Qed.

(** X16: [load], [pause], [play] and [stop] act on the addressed layer
    only, creating it when it is missing: every other layer and all
    transforms are as before. *)
Theorem layer_operations_local index producer preview auto_play_delta s :
  let after := [ (load index producer preview auto_play_delta s,
                  layer_load producer preview auto_play_delta);
                 (pause index s, layer_pause);
                 (play index s, layer_play);
                 (stop index s, layer_stop) ] in
  Forall (λ r : impl * (layer → layer),
            layers_ r.1 !! index =
              Some (r.2 (default layer_new (layers_ s !! index))) ∧
            (∀ k, k ≠ index → layers_ r.1 !! k = layers_ s !! k) ∧
            transforms_ r.1 = transforms_ s) after.
Proof.
  intros after. subst after. unfold load, pause, play, stop.
  repeat (apply Forall_cons; split; [apply on_layer_local|]).
  by apply Forall_nil.
Qed.

(** X17: a layer loaded after [clear(index)] starts from a
    default-constructed layer, whatever the index held before. *)
Theorem clear_then_load_fresh index producer preview auto_play_delta s :
  layers_ (load index producer preview auto_play_delta (clear index s))
    !! index =
  Some (layer_load producer preview auto_play_delta layer_new).
Proof.
  unfold load. rewrite on_layer_lookup.
  destruct (decide (index = index)); [|done].
  unfold clear, set_layers; simpl. by rewrite lookup_delete_eq.
Qed.

(** *** Reports *)

Lemma sorted_nodup_strict (l : list Z) :
  StronglySorted Z.le l → NoDup l → StronglySorted Z.lt l.
Proof.
  induction 1 as [|x l Hs IH Hall]; intros Hnd; constructor.
  - apply IH. by apply NoDup_cons in Hnd as [_ ?].
  - apply NoDup_cons in Hnd as [Hx _].
    apply Forall_forall. intros y Hy.
    rewrite Forall_forall in Hall. specialize (Hall y Hy).
    assert (x ≠ y) by (intros ->; done). lia.
Qed.

Lemma elements_keys_sorted {A} (m : gmap Z A) :
  StronglySorted Z.lt (elements m).*1.
Proof.
  apply sorted_nodup_strict.
  - apply (StronglySorted_fmap fst (λ x y : Z * A, (x.1 ≤ y.1)%Z) Z.le).
    + by intros x y.
    + apply elements_sorted.
  - rewrite elements_Permutation. apply NoDup_fst_map_to_list.
Qed.

Lemma elem_of_elements {A} (m : gmap Z A) k a :
  (k, a) ∈ elements m ↔ m !! k = Some a.
Proof. rewrite elements_Permutation. apply elem_of_map_to_list. Qed.

(** X18: [info()] reports every layer once, in strictly ascending order
    of the index, each with the report of the layer at that index. *)
Theorem info_all_report s :
  StronglySorted Z.lt (info_all s).*2 ∧
  length (info_all s) = size (layers_ s) ∧
  ∀ t k, (t, k) ∈ info_all s ↔
         ∃ l, layers_ s !! k = Some l ∧ t = layer_info l.
Proof.
  unfold info_all. split; [|split].
  - rewrite <- list_fmap_compose.
    assert (snd ∘ (λ kl : Z * layer, (layer_info kl.2, kl.1)) = fst) as ->
      by done.
    apply elements_keys_sorted.
  - rewrite length_fmap, elements_Permutation. apply length_map_to_list.
  - intros t k. rewrite list_elem_of_fmap. split.
    + intros ([k' l] & Heq & Hin). injection Heq as -> ->.
      apply elem_of_elements in Hin. eauto.
    + intros (l & Hl & ->). exists (k, l). split; [done|].
      by apply elem_of_elements.
Qed.

(** *** Operations on the executor *)

Abbreviation stage_executor := (Executor.t impl task task_result).

(** X19: a tick requested through the executor returns to its caller:
    it runs after every task queued before it, and hands back a frame
    map whose keys are the indices of the layers the Stage holds by
    then. *)
Theorem produce_call_returns (e : stage_executor) started format_desc :
  Executor.wf e →
  ∃ fs logged e',
    call (Produce started format_desc) e =
      Some (Frames (Returned fs) logged, e') ∧
    dom fs =
      dom (layers_ (Executor.state
                      (Executor.steps run_task (Executor.pending e) e))).
Proof.
  intros Hwf. unfold call. simpl priority_of.
  rewrite (ExecutorMore.invoke_normal run_task e _ Hwf).
  set (s := Executor.state (Executor.steps run_task (Executor.pending e) e)).
  destruct (produce_keys_aux started format_desc s) as (fs & st & Hp & Hd).
  exists fs, (log st). eexists. split; [|exact Hd].
  simpl. by rewrite Hp.
Qed.


(** X21: [foreground(index)] asked right after [load(index, ...)] yields
    what the loaded layer gives, on top of the layer that the
    high-priority tasks queued before the load left at the index; ticks
    waiting in the normal lane do not come between. *)
Theorem load_then_foreground (e : stage_executor) index producer preview
    auto_play_delta :
  Executor.wf e →
  let s :=
    Executor.state
      (Executor.steps run_task (length (Executor.high e)) e) in
  ∃ e',
    call (Foreground index)
      (submit (Load index producer preview auto_play_delta) e).2 =
    Some (Producer
            (layer_foreground
               (layer_load producer preview auto_play_delta
                  (default layer_new (layers_ s !! index)))),
          e').
Proof.
  intros Hwf s. unfold call. simpl priority_of.
  rewrite ExecutorFacts.invoke_high.
  2:{ by apply ExecutorFacts.wf_begin_invoke. }
  eexists. f_equal. f_equal.
  unfold submit. simpl priority_of.
  assert (length (Executor.high
            (Executor.begin_invoke
               (Load index producer preview auto_play_delta)
               high_priority e).2) = S (length (Executor.high e))) as ->.
  { simpl. rewrite length_app. simpl. lia. }
  destruct (ExecutorFacts.begin_invoke_high_runs run_task e
              (Load index producer preview auto_play_delta)) as [-> _].
  fold s. simpl. unfold foreground, read_layer.
  rewrite (subscript_present _ _ _
             (layer_load producer preview auto_play_delta
                (default layer_new (layers_ s !! index)))).
  - done.
  - unfold load. rewrite on_layer_lookup.
    by destruct (decide (index = index)).
Qed.

End StageMore.
End StageMore.

(** ** More on the Mixer *)

Module MixerMore.
Section MixerMore.
Context `{Mixer.Backends}.
Import Mixer.

Implicit Types (st : mix_state) (s : impl) (e : executor).
Implicit Types (format_desc : video_format_desc).

Lemma on_audio_keeps {A} (m : M audio_mixer A) st :
  log (on_audio m st).2 = log st ∧
  current_aspect_ratio (on_audio m st).2 = current_aspect_ratio st ∧
  image_mixer_ (this (on_audio m st).2) = image_mixer_ (this st).
Proof. unfold on_audio. by destruct (m _). Qed.

Lemma on_image_keeps {A} (m : M image_mixer A) st :
  log (on_image m st).2 = log st ∧
  current_aspect_ratio (on_image m st).2 = current_aspect_ratio st ∧
  audio_mixer_ (this (on_image m st).2) = audio_mixer_ (this st).
Proof. unfold on_image. by destruct (m _). Qed.

Lemma mix_layer_keeps frame st :
  log (mix_layer frame st).2 = log st ∧
  current_aspect_ratio (mix_layer frame st).2 = current_aspect_ratio st.
Proof.
  unfold mix_layer, bind.
  destruct (on_audio_keeps (audio_accept frame.2) st) as (Hl & Hr & _).
  destruct (on_audio (audio_accept frame.2) st) as [[[]|] st1]; simpl in *;
    [|done].
  destruct (on_image_keeps
              (image_accept (with_layer_depth 1 frame.2)) st1) as (Hl' & Hr' & _).
  split; congruence.
Qed.

Lemma for_each_mix_layer_keeps l st :
  log (for_each l mix_layer st).2 = log st ∧
  current_aspect_ratio (for_each l mix_layer st).2 = current_aspect_ratio st.
Proof.
  revert st. induction l as [|frame l IH]; intros st; simpl; [done|].
  unfold bind. destruct (mix_layer_keeps frame st) as [Hl Hr].
  destruct (mix_layer frame st) as [[[]|] st1]; simpl in *; [|done].
  destruct (IH st1) as [Hl' Hr']. split; congruence.
Qed.

Local Ltac thrown_case :=
  split; [congruence|split; [congruence|intros ? ?; discriminate]].

(** The try block: it leaves the log alone, has set the aspect ratio,
    and what it returns is a frame of the format's size. *)
Lemma mix_try_shape frames format_desc st r st' :
  mix_try frames format_desc st = (r, st') →
  log st' = log st ∧
  current_aspect_ratio st' =
    Some (square_width format_desc, square_height format_desc) ∧
  ∀ f, r = Returned f →
       ∃ image audio,
         f = make_const_frame image audio
               {| format := bgra;
                  planes := [ {| plane_width := width format_desc;
                                 plane_height := height format_desc;
                                 plane_channels := 4 |} ] |}.
Proof.
  intros E. unfold mix_try in E. unfold bind at 1 in E.
  unfold modify at 1 in E.
  set (st0 := set_current_aspect_ratio _ _ st) in E.
  assert (log st0 = log st ∧
          current_aspect_ratio st0 =
            Some (square_width format_desc, square_height format_desc))
    as [Hl0 Hr0] by done.
  clearbody st0. unfold bind at 1 in E.
  destruct (for_each_mix_layer_keeps (elements frames) st0) as [Hl1 Hr1].
  destruct (for_each (elements frames) mix_layer st0) as [[[]|] st1];
    simpl in *; [|injection E as <- <-; by thrown_case].
  unfold bind at 1 in E.
  destruct (on_image_keeps (image_finalize format_desc) st1) as (Hl2 & Hr2 & _).
  destruct (on_image (image_finalize format_desc) st1) as [[image|] st2];
    simpl in *; [|injection E as <- <-; by thrown_case].
  unfold bind at 1 in E.
  destruct (on_audio_keeps (audio_finalize format_desc) st2) as (Hl3 & Hr3 & _).
  destruct (on_audio (audio_finalize format_desc) st2) as [[audio|] st3];
    simpl in *; [|injection E as <- <-; by thrown_case].
  injection E as <- <-.
  split; [congruence|]. split; [congruence|].
  intros f Hf. injection Hf as <-. eauto.
Qed.

Lemma mix_task_shape frames format_desc st :
  ∃ f st',
    mix_task frames format_desc st = (Returned f, st') ∧
    current_aspect_ratio st' =
      Some (square_width format_desc, square_height format_desc) ∧
    ((f = const_frame_empty ∧ log st' = log st ++ [current_exception]) ∨
     (log st' = log st ∧
      ∃ image audio,
        f = make_const_frame image audio
              {| format := bgra;
                 planes := [ {| plane_width := width format_desc;
                                plane_height := height format_desc;
                                plane_channels := 4 |} ] |})).
Proof.
  unfold mix_task, try_catch.
  destruct (mix_try frames format_desc st) as [r st1] eqn:E.
  destruct (mix_try_shape frames format_desc st r st1 E) as (Hl & Hr & Hf).
  destruct r as [f|]; simpl in *.
  - eexists _, _. split; [reflexivity|]. split; [done|]. right. auto.
  - eexists _, _. split; [reflexivity|]. simpl. split; [done|]. left.
    by rewrite Hl.
Qed.

Section Caller.
Context `{Mixer.Diagnostics}.

(** X22: what is thrown while mixing never reaches the caller of
    [operator()]: the lambda returns either a frame with one plane of
    the format's width and height and four bytes per pixel, logging
    nothing, or the empty frame, logging one error.  [operator()] hands
    that frame on when the report to the graph returns, and throws
    exactly when that report throws; the Mixer is then as the lambda
    left it. *)
Theorem mix_contains_fault elapsed frames format_desc (c : caller_state) :
  ∃ f st',
    mix_task frames format_desc (mixer_ c) = (Returned f, st') ∧
    ((f = const_frame_empty ∧
      log st' = log (mixer_ c) ++ [current_exception]) ∨
     (log st' = log (mixer_ c) ∧
      ∃ image audio,
        f = make_const_frame image audio
              {| format := bgra;
                 planes := [ {| plane_width := width format_desc;
                                plane_height := height format_desc;
                                plane_channels := 4 |} ] |})) ∧
    mixer_ (mix elapsed frames format_desc c).2 = st' ∧
    (mix elapsed frames format_desc c).1 =
      match (graph_set_value
               (PrimFloat.mul (PrimFloat.mul elapsed (fps format_desc)) 0.5)
               (graph_ c)).1 with
      | Returned _ => Returned f
      | Thrown => Thrown
      end.
Proof.
  destruct (mix_task_shape frames format_desc (mixer_ c))
    as (f & st' & Hm & _ & Hs).
  exists f, st'. split; [exact Hm|]. split; [exact Hs|].
  unfold mix, bind, on_mixer, on_graph, ret. rewrite Hm. simpl.
  by destruct (graph_set_value _ (graph_ c)) as [[[]|] g].
Qed.

End Caller.

(** X23: every mix, failed or not, leaves the process-wide aspect ratio
    at the format's square width over its square height. *)
Theorem mix_sets_aspect_ratio frames format_desc st :
  current_aspect_ratio (mix_task frames format_desc st).2 =
  Some (square_width format_desc, square_height format_desc).
Proof.
  destruct (mix_task_shape frames format_desc st) as (f & st' & Hm & Hr & _).
  by rewrite Hm.
Qed.

(** X24: a mix of no frames visits nothing: the image mixer and then the
    audio mixer are asked for their buffers as they stand, and these
    make the frame. *)
Theorem mix_no_frames format_desc st image i' audio a' :
  image_finalize format_desc (image_mixer_ (this st)) = (Returned image, i') →
  audio_finalize format_desc (audio_mixer_ (this st)) = (Returned audio, a') →
  mix_task ∅ format_desc st =
  (Returned
     (make_const_frame image audio
        {| format := bgra;
           planes := [ {| plane_width := width format_desc;
                          plane_height := height format_desc;
                          plane_channels := 4 |} ] |}),
   {| this := {| audio_mixer_ := a'; image_mixer_ := i' |};
      current_aspect_ratio :=
        Some (square_width format_desc, square_height format_desc);
      log := log st |}).
Proof.
  intros Hi Ha. unfold mix_task, try_catch, mix_try.
  assert (elements (∅ : gmap Z (draw_frame frame_content)) = []) as ->.
  { apply Permutation_nil_r. rewrite elements_Permutation.
    by rewrite map_to_list_empty. }
  unfold bind, modify, on_image, on_audio. simpl. rewrite Hi. simpl.
  rewrite Ha. reflexivity.
Qed.

(** X25: when the audio mixer throws on the frame with the lowest index,
    the mix stops there: the image mixer is not handed any frame and is
    not asked for a buffer, and the caller gets the empty frame. *)
Theorem mix_stops_at_fault frames format_desc st frame rest a' :
  elements frames = frame :: rest →
  audio_accept frame.2 (audio_mixer_ (this st)) = (Thrown, a') →
  mix_task frames format_desc st =
  (Returned const_frame_empty,
   {| this := {| audio_mixer_ := a'; image_mixer_ := image_mixer_ (this st) |};
      current_aspect_ratio :=
        Some (square_width format_desc, square_height format_desc);
      log := log st ++ [current_exception] |}).
Proof.
  intros He Ha. unfold mix_task, try_catch, mix_try. rewrite He.
  unfold bind at 1. unfold modify at 1. unfold bind at 1. simpl for_each.
  unfold bind at 1. unfold mix_layer at 1. unfold bind at 1.
  unfold on_audio at 1. simpl. rewrite Ha. reflexivity.
Qed.

(** X26: with an audio mixer whose visits and whose buffer hand-over do
    not change the master volume, a mix leaves the master volume as it
    was, also when it fails. *)
Theorem mix_keeps_master_volume frames format_desc st :
  (∀ f a,
     audio_get_master_volume (audio_accept f a).2 =
     audio_get_master_volume a) →
  (∀ format_desc' a,
     audio_get_master_volume (audio_finalize format_desc' a).2 =
     audio_get_master_volume a) →
  get_master_volume (this (mix_task frames format_desc st).2) =
  get_master_volume (this st).
Proof.
  intros Haccept Hfinalize.
  apply (MixerFacts.keeps_volume_mix_task Haccept Hfinalize).
Qed.


(** X28: [set_master_volume(v)] overtakes the mixes that are waiting:
    once it has run, after the high-priority tasks queued before it,
    the master volume is [v] and every mix that was waiting is still to
    come. *)
Theorem volume_overtakes_mixes e v :
  (∀ v' a, audio_get_master_volume (audio_set_master_volume v' a) = v') →
  let e' := (submit (SetMasterVolume v) e).2 in
  let n := length (Executor.high e) in
  get_master_volume (Executor.state (Executor.steps run_task (S n) e')) = v ∧
  Executor.normal (Executor.steps run_task (S n) e') = Executor.normal e.
Proof.
  intros Hgs e' n. subst e' n. unfold submit, executor in *.
  change (priority_of (SetMasterVolume v)) with high_priority. split.
  - destruct (ExecutorFacts.begin_invoke_high_runs run_task e
                (SetMasterVolume v)) as [-> _].
    simpl. unfold get_master_volume, set_master_volume. simpl. apply Hgs.
  - rewrite ExecutorMore.steps_high_normal; [done|].
    simpl. rewrite length_app. simpl. lia.
Qed.

End MixerMore.
End MixerMore.

(** ** The further properties on the test doubles *)

Module MoreExamples.

Import Demo Demo2.

Local Existing Instance collaborators.

Lemma apply_transforms_atomic_witness :
  let e' :=
    (Stage.submit (Stage.ApplyTransforms [move_to_scale; move_to_depth])
       stage_waiting).2 in
  ∃ fs logged e'',
    Stage.call (Stage.Produce [0%Z; 1%Z] p720) e' =
      Some (Stage.Frames (Returned fs) logged, e'') ∧
    fs !! 0%Z =
      Some (Stage.make_draw_frame (7, 0, 0%Z) (scaled 2%float)) ∧
    fs !! 1%Z =
      Some (Stage.make_draw_frame (8, 0, 0%Z)
              (set_layer_depth 1 frame_transform_new)).
Proof.
  intros e'.
  destruct (StageFacts.apply_transforms_atomic stage_waiting
              [move_to_scale; move_to_depth])
    as (_ & _ & _ & _ & _ & _ & _ & _ & _ & Hframe).
  assert (Executor.wf stage_waiting) as Hwf
    by (repeat split; repeat constructor).
  assert (NoDup [0%Z; 1%Z]) as Hnd.
  { apply NoDup_cons. split; [|apply NoDup_singleton].
    intros Hin. apply list_elem_of_singleton in Hin. discriminate. }
  destruct (Hframe Hwf eq_refl [0%Z; 1%Z] p720 [] move_to_scale
              [move_to_depth] (playing 7) (7, 0, 0%Z)
              {| foreground_ := 7; background_ := 0; frame_number_ := 1 |})
    as (fs & logged & e'' & Hcall & Hfs0).
  - reflexivity.
  - intros Hin. apply list_elem_of_singleton in Hin. discriminate.
  - exact Hnd.
  - apply list_elem_of_here.
  - reflexivity.
  - reflexivity.
  - destruct (Hframe Hwf eq_refl [0%Z; 1%Z] p720 [move_to_scale]
                move_to_depth [] (playing 8) (8, 0, 0%Z)
                {| foreground_ := 8; background_ := 0; frame_number_ := 1 |})
      as (fs' & logged' & e3 & Hcall' & Hfs1).
    + reflexivity.
    + apply not_elem_of_nil.
    + exact Hnd.
    + apply list_elem_of_further, list_elem_of_here.
    + reflexivity.
    + reflexivity.
    + exists fs, logged, e''. split; [exact Hcall|]. split; [exact Hfs0|].
      unfold e' in *. rewrite Hcall in Hcall'.
      injection Hcall' as -> _ _. exact Hfs1.
Defined.

Lemma produce_no_fault_witness :
  Stage.log (Stage.produce [0%Z] pal stage_one).2 = [] ∧
  dom (Stage.layers_ (Stage.this (Stage.produce [0%Z] pal stage_one).2)) =
    dom (Stage.layers_ stage_one).
Proof. apply StageMore.produce_no_fault. reflexivity. Defined.

Lemma produce_empty_witness :
  Stage.run_task (Stage.Produce [0%Z; 1%Z] pal) stage_bare =
  (Stage.Frames (Returned ∅) [], stage_bare).
Proof. apply StageMore.produce_empty. reflexivity. Defined.

Lemma produce_after_fault_witness :
  Stage.produce [1%Z] p720
    (Stage.this (Stage.produce [0%Z; 1%Z] pal stage_fault).2) =
  (Returned ∅,
   Stage.tick_begin
     (Stage.this (Stage.produce [0%Z; 1%Z] pal stage_fault).2)).
Proof.
  apply (StageMore.produce_after_fault [0%Z; 1%Z] pal stage_fault).
  vm_compute. reflexivity.
Defined.

Lemma produce_orphan_transform_witness :
  Stage.transforms_ (Stage.this (Stage.produce [0%Z; 1%Z] pal stage_orphan).2)
    !! 0%Z = Some running.
Proof.
  rewrite StageMore.produce_orphan_transform; reflexivity.
Defined.

Lemma produce_receives_once_witness :
  Stage.layers_ (Stage.this (Stage.produce [0%Z] pal stage_one).2) !! 0%Z =
  Some {| foreground_ := 7; background_ := 0; frame_number_ := 1 |}.
Proof.
  apply (StageMore.produce_receives_once [0%Z] pal stage_one 0
           (playing 7) (7, 0, 0%Z)).
  - apply NoDup_singleton.
  - apply list_elem_of_here.
  - reflexivity.
  - reflexivity.
  - reflexivity.
Defined.

Lemma clear_transforms_then_produce_witness :
  ∃ fs st,
    Stage.produce [0%Z] pal (Stage.clear_transforms 0 stage_one) =
      (Returned fs, st) ∧
    fs !! 0%Z =
      Some (Stage.layer_frame pal Stage.tweened_transform_new (7, 0, 0%Z)) ∧
    Stage.transforms_ (Stage.this st) !! 0%Z =
      Some (Stage.tick (Stage.layer_ticks pal) Stage.tweened_transform_new).
Proof.
  apply (StageMore.clear_transforms_then_produce [0%Z] pal stage_one 0
           (playing 7) (7, 0, 0%Z)
           {| foreground_ := 7; background_ := 0; frame_number_ := 1 |}).
  - apply NoDup_singleton.
  - apply list_elem_of_here.
  - reflexivity.
  - reflexivity.
Defined.

Lemma alpha_only_flag_witness :
  has_flag (Stage.layer_flags pal (scaled 1.01)) flags_alpha_only = true ↔
  is_key (scaled 1.01) = true.
Proof.
  apply (StageMore.alpha_only_flag pal (scaled 1.01));
    [discriminate|reflexivity].
Defined.


Lemma stage_busy_wf : Executor.wf stage_busy.
Proof. repeat split; repeat constructor. Qed.

Lemma produce_call_returns_witness :
  ∃ fs logged e',
    Stage.call (Stage.Produce [0%Z] pal) stage_busy =
      Some (Stage.Frames (Returned fs) logged, e') ∧
    dom fs =
      dom (Stage.layers_
             (Executor.state
                (Executor.steps Stage.run_task (Executor.pending stage_busy)
                   stage_busy))).
Proof. apply StageMore.produce_call_returns. apply stage_busy_wf. Defined.


Lemma load_then_foreground_witness :
  ∃ e',
    Stage.call (Stage.Foreground 3)
      (Stage.submit (Stage.Load 3 9 true 0) stage_busy).2 =
    Some (Stage.Producer
            (layer_foreground
               (layer_load 9 true 0
                  (default layer_new
                     (Stage.layers_
                        (Executor.state
                           (Executor.steps Stage.run_task 1 stage_busy))
                      !! 3%Z)))),
          e').
Proof.
  apply (StageMore.load_then_foreground stage_busy 3 9 true 0).
  apply stage_busy_wf.
Defined.

Lemma mix_no_frames_witness :
  @Mixer.mix_task recorder ∅ pal mix_fresh =
  (Returned
     (@Mixer.make_const_frame recorder [] []
        {| Mixer.format := Mixer.bgra;
           Mixer.planes := [ {| Mixer.plane_width := 720;
                                Mixer.plane_height := 576;
                                Mixer.plane_channels := 4 |} ] |}),
   @Mixer.Build_mix_state recorder
     (@Mixer.Build_impl recorder ([], 1%float) []) (Some (1024, 576)%Z) []).
Proof.
  apply (@MixerMore.mix_no_frames recorder pal mix_fresh); reflexivity.
Defined.

Lemma mix_stops_at_fault_witness :
  @Mixer.mix_task fragile
    (<[ 2%Z := at_depth 1 0 ]> {[ 0%Z := at_depth 13 0 ]}) pal fragile_fresh =
  (Returned (@Mixer.const_frame_empty fragile),
   @Mixer.Build_mix_state fragile
     (@Mixer.Build_impl fragile ([], 1%float) []) (Some (1024, 576)%Z)
     [Mixer.current_exception]).
Proof.
  apply (@MixerMore.mix_stops_at_fault fragile _ pal fragile_fresh
           (0%Z, at_depth 13 0) [(2%Z, at_depth 1 0)]).
  - vm_compute. reflexivity.
  - reflexivity.
Defined.

Lemma mix_keeps_master_volume_witness :
  @Mixer.get_master_volume recorder
    (Mixer.this
       (@Mixer.mix_task recorder {[ 0%Z := at_depth 0 7 ]} pal mix_fresh).2) =
  @Mixer.get_master_volume recorder (Mixer.this mix_fresh).
Proof.
  apply (@MixerMore.mix_keeps_master_volume recorder).
  - intros f a. reflexivity.
  - intros format_desc a. reflexivity.
Defined.



(** With a graph that throws on a value that is not a number, a mix
    whose timer reading is not a number throws to the caller although
    the mix itself went through. *)
Lemma mix_passes_graph_fault :
  (@Mixer.mix recorder plotting PrimFloat.nan {[ 0%Z := at_depth 0 7 ]} pal
     (@Mixer.Build_caller_state recorder plotting mix_fresh [])).1 = Thrown ∧
  (@Mixer.mix recorder plotting 0.04 {[ 0%Z := at_depth 0 7 ]} pal
     (@Mixer.Build_caller_state recorder plotting mix_fresh [])).1 ≠ Thrown.
Proof. split; [by vm_compute|]. vm_compute. discriminate. Qed.

Lemma volume_overtakes_mixes_witness :
  @Mixer.get_master_volume recorder
    (Executor.state
       (Executor.steps (@Mixer.run_task recorder) 1
          (@Mixer.submit recorder (@Mixer.SetMasterVolume recorder 0.3)
             mixer_busy).2)) = 0.3%float ∧
  Executor.normal
    (Executor.steps (@Mixer.run_task recorder) 1
       (@Mixer.submit recorder (@Mixer.SetMasterVolume recorder 0.3)
          mixer_busy).2) = Executor.normal mixer_busy.
Proof.
  apply (@MixerMore.volume_overtakes_mixes recorder mixer_busy 0.3).
  intros v a. reflexivity.
Defined.

End MoreExamples.

